(** * Hamilton Microlab driver: the Link (comms.py) and the Device Controller
      (microlab.py), embedded as executable Rocq definitions.

    Python values are modelled as follows.
    - [str] is [string]; a one-character string such as [CR] is an [ascii].
    - [bytes] is [list byte].
    - A method that mutates [self] is a function in a state-and-exception
      monad over a record holding the attributes of [self].
    - An uncaught Python exception is the [Raised] outcome; it keeps the state
      reached when the exception was thrown.
    - The socket is what was handed to [send] and what the coming calls of
      [recv] will meet; [send] takes the frame whole.
    - Code that runs in several threads is a machine making one move at a
      time, under any schedule of the moves. *)

From Stdlib Require Import ZArith NArith List String Ascii Bool Lia.
From Stdlib.Strings Require Import Byte.
From Stdlib.Numbers Require Import DecimalString.
From stdpp Require Import base list strings.

(** ** Python built-ins used by the driver *)

Module Py.

(** [s[0]]; [None] stands for the [IndexError] of an empty string. *)
Definition index0 (s : string) : option ascii :=
  match s with
  | EmptyString => None
  | String c _ => Some c
  end.

(** [s.split(sep)] for a one-character separator: one more piece than there
    are separators, empty pieces kept. *)
Fixpoint split (sep : ascii) (s : string) : list string :=
  match s with
  | EmptyString => [EmptyString]
  | String c t =>
      if Ascii.eqb c sep then EmptyString :: split sep t
      else match split sep t with
           | h :: r => String c h :: r
           | [] => [String c EmptyString]
           end
  end.

(** [l[:-1]] *)
Definition drop_last {A} (l : list A) : list A := removelast l.

(** [l[-1]]; [None] stands for the [IndexError] of an empty list. *)
Definition item_last {A} (l : list A) : option A := last l.

Fixpoint lstrip (c : ascii) (s : string) : string :=
  match s with
  | EmptyString => EmptyString
  | String a t => if Ascii.eqb a c then lstrip c t else s
  end.

Fixpoint rstrip (c : ascii) (s : string) : string :=
  match s with
  | EmptyString => EmptyString
  | String a t =>
      match rstrip c t with
      | EmptyString => if Ascii.eqb a c then EmptyString else String a EmptyString
      | t' => String a t'
      end
  end.

(** [s.strip(c)] for a one-character set [c]. *)
Definition strip (c : ascii) (s : string) : string := rstrip c (lstrip c s).

(** [s.replace(c, new)] for a one-character pattern [c]. *)
Fixpoint replace (c : ascii) (new : string) (s : string) : string :=
  match s with
  | EmptyString => EmptyString
  | String a t =>
      if Ascii.eqb a c then new +:+ replace c new t
      else String a (replace c new t)
  end.

(** [x or None] on a string: the empty string is falsy. *)
Definition or_None (s : string) : option string :=
  match s with
  | EmptyString => None
  | _ => Some s
  end.

(** [o != s] for an optional string [o]: [None] differs from every string. *)
Definition ne (o : option string) (s : string) : bool :=
  match o with
  | Some p => negb (String.eqb p s)
  | None => true
  end.

(** [str(z)] for an [int]. *)
Definition str (z : Z) : string := NilZero.string_of_int (Z.to_int z).

Definition is_ascii_byte (b : byte) : bool := (Byte.to_N b <? 128)%N.
Definition is_ascii_char (c : ascii) : bool := (N_of_ascii c <? 128)%N.

(** [bs.decode("ascii")]; [None] stands for [UnicodeDecodeError]. *)
Definition decode (bs : list byte) : option string :=
  if forallb is_ascii_byte bs then Some (string_of_list_byte bs) else None.

(** [s.encode("ascii")]; [None] stands for [UnicodeEncodeError]. *)
Definition encode (s : string) : option (list byte) :=
  if forallb is_ascii_char (list_ascii_of_string s)
  then Some (list_byte_of_string s) else None.

End Py.

(** ** State-and-exception monad *)

Inductive Exn :=
| UnicodeEncodeError   (* request.encode(CODEC) on a non-ASCII request *)
| SocketTimeout        (* socket.timeout out of socket.recv *)
| IndexError           (* s[0] on an empty string, l[-1] on an empty list *)
| RuntimeError         (* Thread.start() on a thread already started *)
| ValueError.          (* a sub-command argument outside its range *)

Inductive Result (S A : Type) :=
| Returned (a : A) (s : S)
| Raised (e : Exn) (s : S).
Arguments Returned {S A} a s.
Arguments Raised {S A} e s.

Definition M (S A : Type) : Type := S -> Result S A.

Definition ret {S A} (a : A) : M S A := fun s => Returned a s.
Definition raise {S A} (e : Exn) : M S A := fun s => Raised e s.
Definition bind {S A B} (m : M S A) (k : A -> M S B) : M S B :=
  fun s => match m s with
         | Returned a s' => k a s'
         | Raised e s' => Raised e s'
         end.
Definition get {S} : M S S := fun s => Returned s s.
Definition modify {S} (f : S -> S) : M S unit := fun s => Returned tt (f s).

(** [o] or the exception [e]. *)
Definition or_raise {S A} (o : option A) (e : Exn) : M S A :=
  match o with
  | Some a => ret a
  | None => raise e
  end.

#[global] Instance M_ret {S} : MRet (M S) := fun A => @ret S A.
#[global] Instance M_bind {S} : MBind (M S) := fun A B k m => @bind S A B m k.

Definition state_of {S A} (r : Result S A) : S :=
  match r with
  | Returned _ s => s
  | Raised _ s => s
  end.

Definition value_of {S A} (r : Result S A) : option A :=
  match r with
  | Returned a _ => Some a
  | Raised _ _ => None
  end.

(** ** comms.py *)

Module Comms.

(** Constants *)
Definition CR : ascii := "013"%char.
Definition ACK : ascii := "006"%char.
Definition NACK : ascii := "!"%char.          (* "\x21" *)
Definition RECV_BUFFER : nat := 4096.

(** Levels of the [logging] module, with their numeric values. *)
Inductive Level := DEBUG | INFO | WARNING | ERROR.
Definition levelno (l : Level) : N :=
  match l with
  | DEBUG => 10 | INFO => 20 | WARNING => 30 | ERROR => 40
  end%N.

(** The texts logged by [Comms], one constructor per call site, carrying the
    interpolated value.  [FailedToParse] keeps the raw bytes where the source
    interpolates their formatted [repr]. *)
Inductive Message :=
| SendingRequest (formatted : string)
| SentBytes (n : nat)
| FailedToParse (raw : list byte)
| ReceivedNACK
| ReceivedResponse (formatted : string)
| MultipleMessages (formatted : string).

Record LogRecord := { rec_level : Level; rec_msg : Message }.

(** What one call of [socket.recv] meets: bytes from the device, or silence
    for [TIMEOUT] seconds. *)
Inductive Recv :=
| Data (bs : list byte)
| Silence.

(** The attributes of a connected [Comms] object together with its
    surroundings: what was handed to [socket.send], what the successive calls
    of [socket.recv] will meet, and the records that logger "Comms" let
    through at its current level. *)
Record t := {
  wire : list (list byte);
  incoming : list Recv;
  level : Level;
  log : list LogRecord }.

Definition set_wire (f : list (list byte) -> list (list byte)) (c : t) : t :=
  {| wire := f (wire c); incoming := incoming c; level := level c; log := log c |}.
Definition set_incoming (i : list Recv) (c : t) : t :=
  {| wire := wire c; incoming := i; level := level c; log := log c |}.
Definition set_level (l : Level) (c : t) : t :=
  {| wire := wire c; incoming := incoming c; level := l; log := log c |}.
Definition set_log (f : list LogRecord -> list LogRecord) (c : t) : t :=
  {| wire := wire c; incoming := incoming c; level := level c; log := f (log c) |}.

Definition isEnabledFor (l : Level) (c : t) : bool :=
  (levelno (level c) <=? levelno l)%N.

(** What a call [self._log.<lvl>(msg)] adds to the log: the record, when the
    logger's level lets it through. *)
Definition emit (l : Level) (m : Message) (c : t) : list LogRecord :=
  if isEnabledFor l c then [{| rec_level := l; rec_msg := m |}] else [].

Definition log_call (l : Level) (m : Message) : M t unit :=
  modify (fun c => set_log (fun rs => rs ++ emit l m c) c).

(** [self._socket.send(bs)]; the frame goes out whole. *)
Definition socket_send (bs : list byte) : M t nat :=
  fun c => Returned (length bs) (set_wire (fun w => w ++ [bs]) c).

(** [self._socket.recv(RECV_BUFFER)]: at most [RECV_BUFFER] bytes of what
    has arrived; what is beyond stays for the next call.  When nothing
    arrives within the timeout, [socket.timeout] is raised. *)
Definition socket_recv : M t (list byte) :=
  fun c =>
    match incoming c with
    | [] => Raised SocketTimeout c
    | Silence :: rest => Raised SocketTimeout (set_incoming rest c)
    | Data bs :: rest =>
        match drop RECV_BUFFER bs with
        | [] => Returned bs (set_incoming rest c)
        | later => Returned (take RECV_BUFFER bs)
                            (set_incoming (Data later :: rest) c)
        end
    end.

(** [_format_message] on a [str]. *)
Definition _format_message (message : string) : string :=
  Py.replace CR "<CR>" (Py.replace ACK "<ACK>" message).

Definition _send (request : string) : M t unit :=
  let request := request +:+ String CR EmptyString in
  log_call DEBUG (SendingRequest (_format_message request)) ;;
  bs ← or_raise (Py.encode request) UnicodeEncodeError ;
  bytes_sent ← socket_send bs ;
  log_call DEBUG (SentBytes bytes_sent).

(** The [with self._lock] block is entered and left by the one caller of this
    sequential model; the interleaving of several callers is the subject of
    [Module Lock] below. *)
Definition _send_receive (request : string) : M t (option string) :=
  _send request ;;
  response ← socket_recv ;
  match Py.decode response with
  | None =>
      log_call ERROR (FailedToParse response) ;;
      ret None
  | Some decoded_response =>
      c ← or_raise (Py.index0 decoded_response) IndexError ;
      if Ascii.eqb c NACK then
        log_call ERROR ReceivedNACK ;;
        ret None
      else
        log_call DEBUG (ReceivedResponse (_format_message decoded_response)) ;;
        ret (Some decoded_response)
  end.

(** The part of [send_receive] after the exchange: what it makes of a decoded
    response that [_send_receive] let through. *)
Definition classify (decoded_response : string) : M t (bool * option string) :=
  let messages := Py.drop_last (Py.split CR decoded_response) in
  (if (1 <? length messages)%nat
   then log_call WARNING (MultipleMessages (_format_message decoded_response))
   else ret tt) ;;
  decoded_response ← or_raise (Py.item_last messages) IndexError ;
  c ← or_raise (Py.index0 decoded_response) IndexError ;
  if Ascii.eqb c ACK
  then ret (true, Py.or_None (Py.strip CR (Py.strip ACK decoded_response)))
  else ret (false, None).

Definition send_receive (request : string) : M t (bool * option string) :=
  decoded_response ← _send_receive request ;
  match decoded_response with
  | None => ret (false, None)
  | Some decoded_response => classify decoded_response
  end.

Definition send_auto_address_message : M t (option string) :=
  decoded_response ← _send_receive "1a" ;
  match decoded_response with
  | None | Some EmptyString => ret None
  | Some decoded_response => ret (head (Py.split CR decoded_response))
  end.

(** A connected link at the level set by [logging.basicConfig], about to
    meet the given receive outcomes. *)
Definition connected (i : list Recv) : t :=
  {| wire := []; incoming := i; level := DEBUG; log := [] |}.

Definition is_multiple_messages (r : LogRecord) : bool :=
  match rec_level r, rec_msg r with
  | WARNING, MultipleMessages _ => true
  | _, _ => false
  end.

(** Number of "multiple messages" warnings in a log. *)
Definition multiple_warnings (rs : list LogRecord) : nat :=
  length (List.filter is_multiple_messages rs).

End Comms.

(** ** The [Command] value consumed by the controller

    [microlab.py] reads one attribute of a [Command], its rendered [string]. *)

Module Command.
Record t := { string : String.string }.
End Command.

(** ** microlab.py *)

Module Microlab.

Definition INSTRUMENT_DONE : string := "F".

(** The texts logged by [Microlab], one constructor per call site. *)
Inductive Message :=
| InitialiseFailed
| InitialiseSuccessful
| HaltedExecution
| FailedToHalt
| ResumedExecution
| FailedToResume
| ClearedBufferedCommands
| FailedToClearBufferedCommands
| CycleAlreadyRunning.

Record LogRecord := { rec_level : Comms.Level; rec_msg : Message }.

(** [threading.Thread(target=self._cycle_commands, args=(commands, address))] *)
Record Thread := {
  args_commands : list Command.t;
  args_address : string;
  started : bool }.

(** The attributes of a [Microlab] object.  [_log] holds the records of logger
    "Microlab", whose level the driver never changes from the root's [DEBUG];
    [naps] counts the calls of [sleep(0.1)]. *)
Record t := {
  _comms : Comms.t;
  _initialised : bool;
  _stop_requested : bool;
  _threads : list Thread;
  _log : list LogRecord;
  naps : nat }.

Definition set_comms (c : Comms.t) (s : t) : t :=
  {| _comms := c; _initialised := _initialised s;
     _stop_requested := _stop_requested s; _threads := _threads s;
     _log := _log s; naps := naps s |}.
Definition set_initialised (b : bool) (s : t) : t :=
  {| _comms := _comms s; _initialised := b;
     _stop_requested := _stop_requested s; _threads := _threads s;
     _log := _log s; naps := naps s |}.
Definition set_stop_requested (b : bool) (s : t) : t :=
  {| _comms := _comms s; _initialised := _initialised s;
     _stop_requested := b; _threads := _threads s;
     _log := _log s; naps := naps s |}.
Definition set_threads (ts : list Thread) (s : t) : t :=
  {| _comms := _comms s; _initialised := _initialised s;
     _stop_requested := _stop_requested s; _threads := ts;
     _log := _log s; naps := naps s |}.
Definition add_log (r : LogRecord) (s : t) : t :=
  {| _comms := _comms s; _initialised := _initialised s;
     _stop_requested := _stop_requested s; _threads := _threads s;
     _log := _log s ++ [r]; naps := naps s |}.
Definition nap (s : t) : t :=
  {| _comms := _comms s; _initialised := _initialised s;
     _stop_requested := _stop_requested s; _threads := _threads s;
     _log := _log s; naps := S (naps s) |}.

(** A call of a method of [self._comms]. *)
Definition on_comms {A} (m : M Comms.t A) : M t A :=
  fun s => match m (_comms s) with
         | Returned a c => Returned a (set_comms c s)
         | Raised e c => Raised e (set_comms c s)
         end.

Definition log_call (l : Comms.Level) (m : Message) : M t unit :=
  modify (add_log {| rec_level := l; rec_msg := m |}).

(** [logging.getLogger(self._comms.__class__.__name__).setLevel(l)] *)
Definition set_comms_log_level (l : Comms.Level) : M t unit :=
  modify (fun s => set_comms (Comms.set_level l (_comms s)) s).

(** [sleep(0.1)] *)
Definition sleep : M t unit := modify nap.

Definition initialise : M t unit :=
  '(success, _) ← on_comms (Comms.send_receive "aXR") ;
  if negb success then
    log_call Comms.ERROR InitialiseFailed
  else
    log_call Comms.DEBUG InitialiseSuccessful ;;
    modify (set_initialised true).

(** The value of the call of [send_receive] is dropped and the method falls off
    its end: it returns [None], here [tt]. *)
Definition send_command (command : Command.t) (address : string) : M t unit :=
  on_comms (Comms.send_receive (address +:+ Command.string command)) ;;
  ret tt.

Definition halt_execution (address : string) : M t unit :=
  '(success, _) ← on_comms (Comms.send_receive (address +:+ "K")) ;
  if (success : bool) then log_call Comms.DEBUG HaltedExecution
  else log_call Comms.ERROR FailedToHalt.



Definition _reset_cycle (address : string) : M t unit :=
  halt_execution address ;;
  modify (set_stop_requested false) ;;
  modify (set_threads []).

(** [self._threads[0].start()] *)
Definition start_first_thread : M t unit :=
  s ← @get t ;
  match _threads s with
  | [] => raise IndexError
  | th :: others =>
      if started th then raise RuntimeError
      else modify (set_threads
                     ({| args_commands := args_commands th;
                         args_address := args_address th;
                         started := true |} :: others))
  end.

Definition cycle_commands (commands : list Command.t) (address : string) : M t unit :=
  s ← @get t ;
  match _threads s with
  | _ :: _ => log_call Comms.ERROR CycleAlreadyRunning
  | [] =>
      modify (fun s => set_threads
                         (_threads s ++ [{| args_commands := commands;
                                            args_address := address;
                                            started := false |}]) s) ;;
      start_first_thread
  end.

(** [stop_cycle] up to its last statement, [self._threads[0].join()], at which
    the caller waits for the background thread to end. *)
Definition stop_cycle (enable_logging : bool) : M t unit :=
  s ← @get t ;
  match _threads s with
  | [] => ret tt
  | _ :: _ =>
      (if enable_logging then set_comms_log_level Comms.DEBUG else ret tt) ;;
      modify (set_stop_requested true)
  end.

(** A [Microlab] as [__init__] leaves it, on a link [c]. *)
Definition init (c : Comms.t) : t :=
  {| _comms := c; _initialised := false; _stop_requested := false;
     _threads := []; _log := []; naps := 0 |}.

(** *** The cycling loop

    [_cycle_commands] runs in a thread of its own while other threads call
    [stop_cycle]; it is therefore given as a machine that makes one move at a
    time.  A move performs at most one transaction, so that a stop request can
    fall between any two transactions and before or after any [sleep]. *)

Section Cycling.

(** [Y_INFO_RESPONSE] of [commands.instrument_information_request]. *)
Variable Y_INFO_RESPONSE : string.

(** Where the thread stands in the body of [_cycle_commands]. *)
Inductive PC :=
| Enter                            (* before [setLevel(logging.ERROR)] *)
| While                            (* at the test of [while not self._stop_requested] *)
| For (rest : list Command.t)      (* at [for command in commands], [rest] still to come *)
| Poll (rest : list Command.t)     (* at the test of the inner [while] *)
| IfStop (rest : list Command.t)   (* at [if self._stop_requested] *)
| Sleep (rest : list Command.t)    (* at [sleep(0.1)] *)
| Done                             (* returned *)
| Dead (e : Exn).                  (* ended by an exception nobody caught *)

(** Where a move goes once the statement [r] it ran has come back. *)
Definition proceed {A} (r : Result t A) (next : A -> PC) : PC * t :=
  match r with
  | Returned a s => (next a, s)
  | Raised e s => (Dead e, s)
  end.

Definition _cycle_commands (commands : list Command.t) (address : string)
           (pc : PC) (s : t) : PC * t :=
  match pc with
  | Enter => proceed (set_comms_log_level Comms.ERROR s) (fun _ => While)
  | While =>
      if _stop_requested s
      then proceed (_reset_cycle address s) (fun _ => Done)
      else (For commands, s)
  | For [] => (While, s)
  | For (command :: rest) =>
      proceed (send_command command address s) (fun _ => Poll rest)
  | Poll rest =>
      proceed (on_comms (Comms.send_receive (address +:+ INSTRUMENT_DONE)) s)
              (fun r => if Py.ne (snd r) Y_INFO_RESPONSE then IfStop rest else For rest)
  | IfStop rest =>
      if _stop_requested s
      then proceed (_reset_cycle address s) (fun _ => Done)
      else (Sleep rest, s)
  | Sleep rest => proceed (sleep s) (fun _ => Poll rest)
  | Done => (Done, s)
  | Dead e => (Dead e, s)
  end.

(** [n] moves of the thread with nobody else touching the controller. *)
Fixpoint moves (n : nat) (commands : list Command.t) (address : string)
         (pc : PC) (s : t) : PC * t :=
  match n with
  | O => (pc, s)
  | S n' =>
      let '(pc', s') := _cycle_commands commands address pc s in
      moves n' commands address pc' s'
  end.

Definition live (pc : PC) : bool :=
  match pc with
  | Done | Dead _ => false
  | _ => true
  end.

(** The commands of the current pass that the thread has still to send. *)
Definition pending (pc : PC) : list Command.t :=
  match pc with
  | For rest | Poll rest | IfStop rest | Sleep rest => rest
  | Enter | While | Done | Dead _ => []
  end.

(** The thread is over: it has returned, leaving the controller idle, or an
    exception has ended it. *)
Definition ended (r : PC * t) : Prop :=
  (fst r = Done /\ _stop_requested (snd r) = false /\ _threads (snd r) = [])
  \/ (exists e, fst r = Dead e).

(** The thread is over within [b] moves made with nobody else touching the
    controller. *)
Definition ends_within (b : nat) (commands : list Command.t) (address : string)
           (pc : PC) (s : t) : Prop :=
  exists n, n <= b /\ ended (moves n commands address pc s).

(** The next [k] polls of the device come back as failures. *)
Fixpoint polls_fail (address : string) (k : nat) (s : t) : Prop :=
  match k with
  | O => True
  | S k' =>
      exists payload s',
        on_comms (Comms.send_receive (address +:+ INSTRUMENT_DONE)) s
        = Returned (false, payload) s'
        /\ polls_fail address k' (nap s')
  end.

(** *** The controller with its background threads

    The threads started by [Thread.start()] run [_cycle_commands]; the calls of
    [cycle_commands] and [stop_cycle] come from the foreground, one at a
    time. *)

Record Task := {
  task_commands : list Command.t;
  task_address : string;
  task_pc : PC }.

Record System := {
  controller : t;
  tasks : list Task }.

Inductive Action :=
| CallCycleCommands (commands : list Command.t) (address : string)
| CallStopCycle (enable_logging : bool)
| Background (i : nat).

(** The thread that a call has just started, if any. *)
Definition newly_started (before after : t) : list Task :=
  match _threads before, _threads after with
  | [], th :: _ =>
      if started th
      then [{| task_commands := args_commands th;
               task_address := args_address th;
               task_pc := Enter |}]
      else []
  | _, _ => []
  end.

Definition perform (a : Action) (sys : System) : System :=
  match a with
  | CallCycleCommands commands address =>
      let after := state_of (cycle_commands commands address (controller sys)) in
      {| controller := after;
         tasks := tasks sys ++ newly_started (controller sys) after |}
  | CallStopCycle enable_logging =>
      {| controller := state_of (stop_cycle enable_logging (controller sys));
         tasks := tasks sys |}
  | Background i =>
      match tasks sys !! i with
      | None => sys
      | Some tk =>
          let '(pc', s') := _cycle_commands (task_commands tk) (task_address tk)
                                            (task_pc tk) (controller sys) in
          {| controller := s';
             tasks := <[i := {| task_commands := task_commands tk;
                                task_address := task_address tk;
                                task_pc := pc' |}]> (tasks sys) |}
      end
  end.

Fixpoint execute (schedule : list Action) (sys : System) : System :=
  match schedule with
  | [] => sys
  | a :: schedule' => execute schedule' (perform a sys)
  end.

(** What holds of the controller and its threads at all times: the list holds
    at most one thread, is not empty while a thread is alive, and no two
    threads are alive. *)
Definition one_cycle (sys : System) : Prop :=
  length (_threads (controller sys)) <= 1
  /\ (forall i tk, tasks sys !! i = Some tk -> live (task_pc tk) = true ->
                   _threads (controller sys) <> [])
  /\ (forall i j ti tj,
         tasks sys !! i = Some ti -> tasks sys !! j = Some tj ->
         live (task_pc ti) = true -> live (task_pc tj) = true -> i = j).

(** The controller just constructed: no thread yet. *)
Definition boot (c : Comms.t) : System :=
  {| controller := init c; tasks := [] |}.

End Cycling.

End Microlab.

(** ** The lock of the Link under concurrent callers

    Several threads call [Comms._send_receive] on one [Comms] object.  Each
    stands at one point of

      with self._lock:
          self._send(request)
          response = self._socket.recv(RECV_BUFFER)

    and the scheduler lets one of them make one move at a time.
    [threading.Lock] is a flag: it is acquired by the thread that finds it
    clear, and a thread that finds it set waits. *)

Module Lock.

Inductive Pc :=
| Outside                      (* not in the [with] block *)
| Waiting (request : string)   (* at [with self._lock], lock not yet acquired *)
| Holding (request : string)   (* lock acquired, before [self._send(request)] *)
| Sent (request : string)      (* request sent, before [self._socket.recv] *)
| Leaving.                     (* leaving the block, normally or by an exception *)

(** What happens on the connection. *)
Inductive Event :=
| Tx (thread : nat) (request : string)
| Rx (thread : nat) (response : option (list byte)).   (* [None]: timed out *)

Record t := {
  link : Comms.t;
  locked : bool;
  pcs : list Pc;
  events : list Event }.

Inductive Move :=
| Call (i : nat) (request : string)
| Acquire (i : nat)
| Send (i : nat)
| Receive (i : nat)
| Release (i : nat).

Definition thread_of (m : Move) : nat :=
  match m with
  | Call i _ | Acquire i | Send i | Receive i | Release i => i
  end.

(** One move of thread [thread_of m]; a move that the thread cannot make where
    it stands changes nothing. *)
Definition move (m : Move) (g : t) : t :=
  match m, pcs g !! thread_of m with
  | Call i request, Some Outside =>
      {| link := link g; locked := locked g;
         pcs := <[i := Waiting request]> (pcs g); events := events g |}
  | Acquire i, Some (Waiting request) =>
      if locked g then g
      else {| link := link g; locked := true;
              pcs := <[i := Holding request]> (pcs g); events := events g |}
  | Send i, Some (Holding request) =>
      match Comms._send request (link g) with
      | Returned _ c =>
          {| link := c; locked := locked g;
             pcs := <[i := Sent request]> (pcs g);
             events := events g ++ [Tx i request] |}
      | Raised _ c =>
          {| link := c; locked := locked g;
             pcs := <[i := Leaving]> (pcs g); events := events g |}
      end
  | Receive i, Some (Sent _) =>
      match Comms.socket_recv (link g) with
      | Returned response c =>
          {| link := c; locked := locked g;
             pcs := <[i := Leaving]> (pcs g);
             events := events g ++ [Rx i (Some response)] |}
      | Raised _ c =>
          {| link := c; locked := locked g;
             pcs := <[i := Leaving]> (pcs g);
             events := events g ++ [Rx i None] |}
      end
  | Release i, Some Leaving =>
      {| link := link g; locked := false;
         pcs := <[i := Outside]> (pcs g); events := events g |}
  | _, _ => g
  end.

Fixpoint run (schedule : list Move) (g : t) : t :=
  match schedule with
  | [] => g
  | m :: schedule' => run schedule' (move m g)
  end.

(** [n] threads about to use a link whose lock is clear. *)
Definition start (c : Comms.t) (n : nat) : t :=
  {| link := c; locked := false; pcs := replicate n Outside; events := [] |}.

(** A thread is inside when it holds the lock. *)
Definition inside (pc : Pc) : bool :=
  match pc with
  | Holding _ | Sent _ | Leaving => true
  | Outside | Waiting _ => false
  end.

(** A thread is in flight between its send and its receive. *)
Definition in_flight (pc : Pc) : bool :=
  match pc with
  | Sent _ => true
  | _ => false
  end.

(** The connection as seen from its events: idle, carrying the open exchange of
    one thread, or disturbed by an event that does not belong to the open
    exchange. *)
Inductive Line :=
| Idle
| Open (thread : nat)
| Clash.

Definition observe (l : Line) (e : Event) : Line :=
  match l, e with
  | Idle, Tx i _ => Open i
  | Open i, Rx j _ => if Nat.eqb i j then Idle else Clash
  | _, _ => Clash
  end.

Definition line_of (es : list Event) : Line := fold_left observe es Idle.

(** What holds of the lock, the threads and the connection at all times: with
    the lock clear no thread is inside; no two threads are inside; and an
    exchange is open on the connection exactly for the thread that stands
    between its send and its receive. *)
Definition exclusive (g : t) : Prop :=
  (locked g = false -> forall i pc, pcs g !! i = Some pc -> inside pc = false)
  /\ (forall i j pci pcj,
         pcs g !! i = Some pci -> pcs g !! j = Some pcj ->
         inside pci = true -> inside pcj = true -> i = j)
  /\ match line_of (events g) with
     | Idle => forall i pc, pcs g !! i = Some pc -> in_flight pc = false
     | Open i => exists request, pcs g !! i = Some (Sent request)
     | Clash => False
     end.

(** Two callers contending for the link: the second asks for the lock while
    the first holds it, and gets it once the first has left. *)
Definition two_callers : list Move :=
  [Call 0 "aF"; Call 1 "aK"; Acquire 0; Acquire 1; Send 0; Send 1; Receive 0;
   Receive 1; Release 0; Acquire 1; Send 1].

End Lock.

(** ** Syringe sub-commands (commands/syringe_move.py, commands/command.py)

    The constructors are built from what the specification says of them; the
    tests of [test_syringe_move.py] fix their signature
    [(side, value, speed=None, return_steps=None)], the rendered string of a
    pickup, and [ValueError] as the exception of a rejected argument. *)

Module SyringeMove.

Inductive Side := LEFT | RIGHT.
Inductive Kind := SyringePickup | SyringeDispense | SyringeAbsoluteMove.

(** An optional numeric argument as a caller may pass it. *)
Inductive Arg :=
| Omitted
| Integer (z : Z)
| NonInteger.

Inductive Field := Value | Speed | ReturnSteps.

Inductive Notice :=
| OutsideAcceptableRange (f : Field)
| IgnoringNonInteger (f : Field).

Record t := {
  kind : Kind;
  side : Side;
  value : Z;
  speed : option Z;
  return_steps : option Z }.

Definition within (lo hi z : Z) : bool := (lo <=? z)%Z && (z <=? hi)%Z.

Section Ranges.

(** The bounds of the documented ranges and the letters of the two sides, which
    the sub-command modules define. *)
Variables MIN_SYRINGE_MOVE MAX_SYRINGE_MOVE : Z.
Variables MIN_SPEED MAX_SPEED : Z.
Variables MIN_RETURN_STEPS MAX_RETURN_STEPS : Z.
Variable Side_value : Side -> string.

(** Modelled from the spec: the validation of an optional speed or return-steps
    argument, missing with commands/syringe_move.py.  An integer outside its
    range is rejected; a non-integer is ignored with a notice.  [None] stands
    for the rejection. *)
Definition validate_optional (f : Field) (lo hi : Z) (a : Arg)
  : list Notice * option (option Z) :=
  match a with
  | Omitted => ([], Some None)
  | NonInteger => ([IgnoringNonInteger f], Some None)
  | Integer z =>
      if within lo hi z then ([], Some (Some z))
      else ([OutsideAcceptableRange f], None)
  end.

(** Modelled from the spec: the constructor shared by [SyringePickup],
    [SyringeDispense] and [SyringeAbsoluteMove], missing with
    commands/syringe_move.py.  Each numeric field is validated at construction;
    the result is the notices logged and the sub-command, or [None] when a
    field is rejected. *)
Definition validate (k : Kind) (sd : Side) (v : Z) (sp rs : Arg)
  : list Notice * option t :=
  if negb (within MIN_SYRINGE_MOVE MAX_SYRINGE_MOVE v)
  then ([OutsideAcceptableRange Value], None)
  else
    let '(n1, sp') := validate_optional Speed MIN_SPEED MAX_SPEED sp in
    match sp' with
    | None => (n1, None)
    | Some sp'' =>
        let '(n2, rs') :=
          validate_optional ReturnSteps MIN_RETURN_STEPS MAX_RETURN_STEPS rs in
        match rs' with
        | None => (n1 ++ n2, None)
        | Some rs'' =>
            (n1 ++ n2,
             Some {| kind := k; side := sd; value := v;
                     speed := sp''; return_steps := rs'' |})
        end
    end.

(** Modelled from the spec: the constructor call as a statement of a program
    over any state [S]: it yields the sub-command or raises [ValueError], the
    exception that [test_syringe_move.py] expects, and has no access to [S]. *)
Definition new {S} (k : Kind) (sd : Side) (v : Z) (sp rs : Arg) : M S t :=
  or_raise (snd (validate k sd v sp rs)) ValueError.

(** Modelled from the spec: the operation letters of the three sub-commands. *)
Definition letter (k : Kind) : string :=
  match k with
  | SyringePickup => "P"
  | SyringeDispense => "D"
  | SyringeAbsoluteMove => "M"
  end.

(** Modelled from the spec: an optional field behind its one-letter tag. *)
Definition tagged (tag : string) (o : option Z) : string :=
  match o with
  | Some z => tag +:+ Py.str z
  | None => EmptyString
  end.

(** Modelled from the spec: the rendered fragment of a sub-command, missing
    with commands/syringe_move.py: side letter, operation letter, value, then
    the optional speed and return steps behind their tags [S] and [N]. *)
Definition string (m : t) : String.string :=
  Side_value (side m) +:+ letter (kind m) +:+ Py.str (value m)
  +:+ tagged "S" (speed m) +:+ tagged "N" (return_steps m).

(** Modelled from the spec: [Command(subcommands)], missing with
    commands/command.py: the fragments concatenated in order. *)
Definition Command (subcommands : list t) : Command.t :=
  {| Command.string := fold_right String.append EmptyString (map string subcommands) |}.

(** *** wrapper.py: the callers that build one sub-command and send it *)

(** [FIRST_ADDRESS] of [commands.helpers], the default of [address]. *)
Variable FIRST_ADDRESS : String.string.

(** [subcommand = <Kind>(side=..., value=..., ...)] followed by
    [self.microlab.send_command(Command([subcommand]))]. *)
Definition build_and_send (k : Kind) (sd : Side) (v : Z) (sp rs : Arg)
  : M Microlab.t unit :=
  subcommand ← new k sd v sp rs ;
  Microlab.send_command (Command [subcommand]) FIRST_ADDRESS.

Definition _move_syringe_by_absolute_steps (sd : Side) (v : Z) : M Microlab.t unit :=
  build_and_send SyringeAbsoluteMove sd v Omitted Omitted.

Definition _syringe_pickup (sd : Side) (steps : Z) : M Microlab.t unit :=
  build_and_send SyringePickup sd steps Omitted Omitted.

Definition _syringe_dispense (sd : Side) (steps : Z) : M Microlab.t unit :=
  build_and_send SyringeDispense sd steps Omitted Omitted.

End Ranges.

End SyringeMove.

(** * Properties *)

(** ** States and results named in the statements *)

Module LinkTerms.
Import Comms.

(** The link after [_send request] has put the frame [bs] on the wire. *)
Definition after_send (request : string) (bs : list byte) (c : t) : t :=
  {| wire := wire c ++ [bs];
     incoming := incoming c;
     level := level c;
     log := log c
            ++ emit DEBUG (SendingRequest
                             (_format_message (request +:+ String CR EmptyString))) c
            ++ emit DEBUG (SentBytes (length bs)) c |}.

(** The link after a whole transaction: one frame out, one receive consumed,
    and [said], the records added after the receive. *)
Definition after_exchange (request : string) (bs : list byte)
           (rest : list Recv) (said : list LogRecord) (c : t) : t :=
  {| wire := wire c ++ [bs];
     incoming := rest;
     level := level c;
     log := log (after_send request bs c) ++ said |}.

(** What lines 128-132 of [send_receive] make of a message [String a t]. *)
Definition verdict (a : ascii) (t : string) : bool * option string :=
  if Ascii.eqb a ACK
  then (true, Py.or_None (Py.strip CR (Py.strip ACK (String a t))))
  else (false, None).

(** The warning of line 122, emitted when other messages precede the last. *)
Definition warned (decoded : string) (earlier : list string) (c : t) : list LogRecord :=
  match earlier with
  | [] => []
  | _ :: _ => emit WARNING (MultipleMessages (_format_message decoded)) c
  end.

(** Replies named in the statements, byte by byte. *)
Definition reply_ackA_ackB : list byte := [x06; x41; x0d; x06; x42; x0d].  (* \x06A\r\x06B\r *)
Definition reply_nackA_ackB : list byte := [x21; x41; x0d; x06; x42; x0d]. (* !A\r\x06B\r *)
Definition reply_ack_at : list byte := [x06; x40; x0d].                    (* \x06@\r *)
Definition reply_ack : list byte := [x06; x0d].                            (* \x06\r *)
Definition reply_nack : list byte := [x21; x0d].                           (* !\r *)
Definition reply_cut_short : list byte := [x06; x41].                      (* \x06A, no CR *)

End LinkTerms.

Module ControllerTerms.
Import Microlab.

(** The record that [halt_execution] logs for a transaction result. *)
Definition halt_record (r : bool * option string) : LogRecord :=
  if fst r then {| rec_level := Comms.DEBUG; rec_msg := HaltedExecution |}
  else {| rec_level := Comms.ERROR; rec_msg := FailedToHalt |}.

(** The controller once [_reset_cycle] has returned after a halt transaction
    with result [r] that left the link as [c]. *)
Definition after_reset (r : bool * option string) (c : Comms.t) (s : t) : t :=
  set_threads [] (set_stop_requested false (add_log (halt_record r) (set_comms c s))).

(** A controller whose cycle has been asked to stop, about to meet the
    receive outcomes [i]. *)
Definition stopping (i : list Comms.Recv) : t :=
  {| _comms := Comms.connected i; _initialised := true; _stop_requested := true;
     _threads := [{| args_commands := []; args_address := "a"; started := true |}];
     _log := []; naps := 0 |}.

(** A controller whose cycle is running, about to meet the receive outcomes
    [i]. *)
Definition cycling (i : list Comms.Recv) : t :=
  {| _comms := Comms.set_level Comms.ERROR (Comms.connected i);
     _initialised := true; _stop_requested := false;
     _threads := [{| args_commands := []; args_address := "a"; started := true |}];
     _log := []; naps := 0 |}.

End ControllerTerms.

(** * Further code of the driver *)

(** ** What the statements say of strings *)

Module Text.

(** [c in s] *)
Fixpoint has (c : ascii) (s : string) : bool :=
  match s with
  | EmptyString => false
  | String a t => Ascii.eqb a c || has c t
  end.

(** [sep.join(pieces)] for a one-character separator. *)
Fixpoint join (sep : ascii) (pieces : list string) : string :=
  match pieces with
  | [] => EmptyString
  | [p] => p
  | p :: more => p +:+ String sep (join sep more)
  end.

(** [s.count(c)] *)
Fixpoint count (c : ascii) (s : string) : nat :=
  match s with
  | EmptyString => 0
  | String a t => (if Ascii.eqb a c then 1 else 0) + count c t
  end.

End Text.

(** ** comms.py: [clear_socket] *)

Module Drain.
Import Comms.

(** A bound on the calls of [socket.recv] that what is still to arrive can
    feed: each call takes an outcome away or at least a byte of one. *)
Fixpoint backlog (i : list Recv) : nat :=
  match i with
  | [] => 0
  | Silence :: rest => S (backlog rest)
  | Data bs :: rest => S (length bs + backlog rest)
  end.

(** The loop of [clear_socket], [while True: try: recv except socket.timeout:
    break], run for at most [turns] turns.  Running out of turns is shown never
    to happen with the turns that [clear_socket] grants. *)
Fixpoint clear_socket_loop (turns : nat) : M t unit :=
  fun c =>
    match turns with
    | O => Raised RuntimeError c
    | S turns' =>
        match socket_recv c with
        | Returned _ c' => clear_socket_loop turns' c'
        | Raised SocketTimeout c' => Returned tt c'
        | Raised e c' => Raised e c'
        end
    end.

Definition clear_socket : M t unit :=
  fun c => clear_socket_loop (S (backlog (incoming c))) c.

(** What is left to arrive once the first silence has passed. *)
Fixpoint after_silence (i : list Recv) : list Recv :=
  match i with
  | [] => []
  | Silence :: rest => rest
  | Data _ :: rest => after_silence rest
  end.

End Drain.

(** ** microlab.py: the methods that hand an answer back

    The records that these methods give to logger "Microlab" are kept in a list
    of their own, beside the controller. *)

Module Queries.

Inductive Message :=
| AutoAddressSuccessful
| AutoAddressFailed
| FirmwareVersion (firmware_version : option string)
| FailedToGetFirmwareVersion.

Record LogRecord := { rec_level : Comms.Level; rec_msg : Message }.

Record t := {
  microlab : Microlab.t;
  said : list LogRecord }.

Definition on_microlab {A} (m : M Microlab.t A) : M t A :=
  fun q => match m (microlab q) with
         | Returned a s => Returned a {| microlab := s; said := said q |}
         | Raised e s => Raised e {| microlab := s; said := said q |}
         end.

Definition log_call (l : Comms.Level) (m : Message) : M t unit :=
  modify (fun q => {| microlab := microlab q;
                      said := said q ++ [{| rec_level := l; rec_msg := m |}] |}).

(** [response in ["1b", "1a"]] for an optional string. *)
Definition is_1b_or_1a (response : option string) : bool :=
  match response with
  | Some r => String.eqb r "1b" || String.eqb r "1a"
  | None => false
  end.

Definition auto_address : M t bool :=
  response ← on_microlab (Microlab.on_comms Comms.send_auto_address_message) ;
  if is_1b_or_1a response then
    log_call Comms.DEBUG AutoAddressSuccessful ;;
    mret true
  else
    log_call Comms.ERROR AutoAddressFailed ;;
    mret false.

(** The value handed back is the payload, which may be [None], or the empty
    string. *)
Definition get_firmware_version : M t (option string) :=
  '(success, firmware_version) ← on_microlab (Microlab.on_comms (Comms.send_receive "aU")) ;
  if (success : bool) then
    log_call Comms.DEBUG (FirmwareVersion firmware_version) ;;
    mret firmware_version
  else
    log_call Comms.ERROR FailedToGetFirmwareVersion ;;
    mret (Some EmptyString).

Definition fresh (c : Comms.t) : t :=
  {| microlab := Microlab.init c; said := [] |}.

End Queries.

(** ** wrapper.py: what the process variables show *)

Module Wrapper.

(** The alarm severities of [softioc.alarm] that the wrapper uses. *)
Inductive Alarm := NO_ALARM | MAJOR_ALARM | INVALID_ALARM.

(** [byte & ((1 << n) - 1)]; a negative shift count is a [ValueError]. *)
Definition _get_last_n_bits (byte n : Z) : Z + Exn :=
  if (n <? 0)%Z then inr ValueError
  else inl (Z.land byte (Z.shiftl 1 n - 1)).

(** [if x:] on an [int]. *)
Definition truthy (x : Z) : bool := negb (x =? 0)%Z.

Definition _return_major_alarm_when_bit_is_true
           (response alarm_byte response_subbyte : Z) : Z * Alarm :=
  if truthy (Z.land response alarm_byte)
  then (response_subbyte, MAJOR_ALARM)
  else (response_subbyte, NO_ALARM).

(** The four status getters below are given the answer of the [request()] they
    start with. *)
Definition get_instrument_error_status (response : option Z)
  : (option Z * Alarm) + Exn :=
  match response with
  | None => inl (None, INVALID_ALARM)
  | Some response =>
      match _get_last_n_bits response 4 with
      | inl bits =>
          let '(v, a) := _return_major_alarm_when_bit_is_true response 15 bits in
          inl (Some v, a)
      | inr e => inr e
      end
  end.

Definition get_instrument_busy_status (response : option Z)
  : (option Z * Alarm) + Exn :=
  match response with
  | None => inl (None, INVALID_ALARM)
  | Some response =>
      match _get_last_n_bits response 2 with
      | inl bits =>
          let '(v, a) := _return_major_alarm_when_bit_is_true response 0 bits in
          inl (Some v, a)
      | inr e => inr e
      end
  end.

Definition get_instrument_status_request (response : option Z)
  : (option Z * Alarm) + Exn :=
  match response with
  | None => inl (None, INVALID_ALARM)
  | Some response =>
      match _get_last_n_bits response 5 with
      | inl bits =>
          let '(v, a) :=
            _return_major_alarm_when_bit_is_true response 30 (Z.shiftr bits 3) in
          inl (Some v, a)
      | inr e => inr e
      end
  end.

(** [t[idx]] on a tuple: a negative index counts from the end, an index out of
    range is an [IndexError]. *)
Definition item {A} (l : list A) (idx : Z) : A + Exn :=
  let n := Z.of_nat (length l) in
  let i := if (idx <? 0)%Z then (idx + n)%Z else idx in
  if (i <? 0)%Z then inr IndexError
  else match l !! Z.to_nat i with
       | Some x => inl x
       | None => inr IndexError
       end.

Definition get_detailed_syringe_valve_error (response : option (list Z)) (idx : Z)
  : (option Z * Alarm) + Exn :=
  match response with
  | None => inl (None, INVALID_ALARM)
  | Some response =>
      match item response idx with
      | inr e => inr e
      | inl byte =>
          match _get_last_n_bits byte 5 with
          | inl bits =>
              let '(v, a) := _return_major_alarm_when_bit_is_true byte 31 bits in
              inl (Some v, a)
          | inr e => inr e
          end
      end
  end.

(** [_get_individual_syringe_error_status], given the answer of its request. *)
Definition _get_individual_syringe_error_status (response : option Z) (error : Z)
  : string * Alarm :=
  match response with
  | None => ("Request Error", INVALID_ALARM)
  | Some response =>
      if truthy (Z.land response error) then ("Syringe Error", MAJOR_ALARM)
      else ("Ready", NO_ALARM)
  end.

Definition get_right_syringe_error_status (response : option Z) : string * Alarm :=
  _get_individual_syringe_error_status response 8.

Definition get_left_syringe_error_status (response : option Z) : string * Alarm :=
  _get_individual_syringe_error_status response 2.

(** [deque.append(x)] on a deque of [maxlen] places: the oldest values leave. *)
Definition deque_append (maxlen : nat) (x : Z) (d : list Z) : list Z :=
  drop (length (d ++ [x]) - maxlen) (d ++ [x]).

(** [volumes[0] < volumes[1]] and [volumes[0] > volumes[1]]; [None] stands for
    the [IndexError] of a deque with fewer than two values. *)
Definition _values_increasing (volumes : list Z) : option bool :=
  match volumes with
  | v0 :: v1 :: _ => Some (v0 <? v1)%Z
  | _ => None
  end.

Definition _values_decreasing (volumes : list Z) : option bool :=
  match volumes with
  | v0 :: v1 :: _ => Some (v0 >? v1)%Z
  | _ => None
  end.

(** One turn of [_syringe_movement_loop] that got a position: the deque after
    the append and what the two records are set to. *)
Definition movement_turn (position : Z) (recent_positions : list Z)
  : list Z * option bool * option bool :=
  let recent_positions := deque_append 2 position recent_positions in
  (recent_positions,
   _values_increasing recent_positions,
   _values_decreasing recent_positions).

End Wrapper.

(** ** The outcome of a transaction read off the decoded reply *)

Module Reading.
Import Comms.

(** The messages that [send_receive] finds in a decoded reply. *)
Definition messages_of (decoded : string) : list string :=
  Py.drop_last (Py.split CR decoded).

(** The decoded reply closes a message: its last CR comes right after a
    character that is not a CR. *)
Definition closes_a_message (decoded : string) : Prop :=
  exists body a tail,
    decoded = body +:+ String a (String CR tail)
    /\ a <> CR /\ Text.has CR tail = false.

(** The records of level ERROR in a log. *)
Definition errors (rs : list LogRecord) : list LogRecord :=
  List.filter (fun r => match rec_level r with ERROR => true | _ => false end) rs.

(** A statement that at most logs: it leaves the socket and the level of the
    logger as they are, whether it returns or raises. *)
Definition only_logs {A} (m : M t A) : Prop :=
  forall c,
    wire (state_of (m c)) = wire c
    /\ incoming (state_of (m c)) = incoming c
    /\ level (state_of (m c)) = level c.

(** The request holds a character outside ASCII. *)
Definition not_ascii (request : string) : Prop :=
  forallb Py.is_ascii_char (list_ascii_of_string request) = false.

End Reading.

(** ** The controller over whole schedules *)

Module CycleTerms.
Import Microlab.

(** The thread list still holds a thread although no thread is alive. *)
Definition wedged (sys : System) : Prop :=
  _threads (controller sys) <> []
  /\ forall i tk, tasks sys !! i = Some tk -> live (task_pc tk) = false.

(** No call of the schedule is [stop_cycle(enable_logging=True)]. *)
Definition leaves_logging_off (schedule : list Action) : bool :=
  forallb (fun a => match a with
                    | CallStopCycle true => false
                    | _ => true
                    end) schedule.

(** A controller whose one thread died of the socket timeout that its first
    command met. *)
Definition stuck_system : System :=
  {| controller := set_comms (Comms.set_level Comms.ERROR (Comms.connected []))
                     (ControllerTerms.cycling []);
     tasks := [{| task_commands := [{| Command.string := "BM100" |}];
                  task_address := "a";
                  task_pc := Dead SocketTimeout |}] |}.

(** The task that a call of [cycle_commands] starts. *)
Definition entering (commands : list Command.t) (address : string) : Task :=
  {| task_commands := commands; task_address := address; task_pc := Enter |}.

(** Task [tk] once it has returned. *)
Definition returned (tk : Task) : Task :=
  {| task_commands := task_commands tk; task_address := task_address tk;
     task_pc := Done |}.

End CycleTerms.

(** ** The Link *)

Ltac run :=
  repeat (unfold mbind, M_bind, bind, mret, M_ret, ret, modify, or_raise, raise,
            Comms.log_call, Comms.socket_send; simpl).

Ltac same_state :=
  unfold LinkTerms.after_exchange, LinkTerms.after_send, Comms.set_log,
    Comms.set_wire, Comms.set_incoming, Comms.emit, Comms.isEnabledFor;
  simpl; rewrite <- ?app_assoc; simpl; try reflexivity.

Section CommsFacts.
Import Comms LinkTerms.

Lemma run_bind {S A B} (m : M S A) (k : A -> M S B) s :
  (m ≫= k) s = match m s with
               | Returned a s' => k a s'
               | Raised e s' => Raised e s'
               end.
Proof. reflexivity. Qed.

Lemma _send_returns request bs c :
  Py.encode (request +:+ String CR EmptyString) = Some bs ->
  _send request c = Returned tt (after_send request bs c).
Proof.
  intros Henc. unfold _send. rewrite run_bind. simpl.
  rewrite Henc. run. same_state.
Qed.

Lemma socket_recv_data reply rest c :
  incoming c = Data reply :: rest ->
  length reply <= RECV_BUFFER ->
  socket_recv c = Returned reply (set_incoming rest c).
Proof.
  intros Hin Hlen. unfold socket_recv. rewrite Hin.
  rewrite (drop_ge _ _ Hlen). reflexivity.
Qed.

Lemma socket_recv_silent c :
  incoming c = [] \/ (exists rest, incoming c = Silence :: rest) ->
  exists c', socket_recv c = Raised SocketTimeout c'.
Proof.
  intros [Hin | [rest Hin]]; unfold socket_recv; rewrite Hin; eauto.
Qed.

Lemma classify_last_message d earlier a t c :
  Py.drop_last (Py.split CR d) = earlier ++ [String a t] ->
  classify d c
  = Returned (verdict a t) (set_log (fun rs => rs ++ warned d earlier c) c).
Proof.
  intros Hsplit. unfold classify. rewrite Hsplit.
  unfold Py.item_last. rewrite last_snoc, length_app. simpl.
  destruct earlier as [| m ms]; simpl.
  - run. unfold verdict. destruct (Ascii.eqb a ACK); run;
      unfold set_log; rewrite app_nil_r; destruct c; reflexivity.
  - replace (length ms + 1) with (S (length ms)) by lia. simpl.
    run. unfold verdict. destruct (Ascii.eqb a ACK); run; reflexivity.
Qed.

Section OneExchange.
Variables (request : string) (bs reply : list byte) (rest : list Recv) (c : t).
Hypothesis Henc : Py.encode (request +:+ String CR EmptyString) = Some bs.
Hypothesis Hin : incoming c = Data reply :: rest.
Hypothesis Hlen : length reply <= RECV_BUFFER.

Lemma exchange_prefix {A} (k : list byte -> M t A) :
  (_send request ;; response ← socket_recv ; k response) c
  = k reply (set_incoming rest (after_send request bs c)).
Proof.
  rewrite run_bind, (_send_returns _ _ _ Henc). rewrite run_bind.
  rewrite (socket_recv_data reply rest); [reflexivity | exact Hin | exact Hlen].
Qed.

Lemma _send_receive_undecodable :
  Py.decode reply = None ->
  _send_receive request c
  = Returned None
      (after_exchange request bs rest (emit ERROR (FailedToParse reply) c) c).
Proof.
  intros Hdec. unfold _send_receive. rewrite exchange_prefix, Hdec.
  run. same_state.
Qed.

Lemma _send_receive_nack d t :
  Py.decode reply = Some d -> d = String NACK t ->
  _send_receive request c
  = Returned None (after_exchange request bs rest (emit ERROR ReceivedNACK c) c).
Proof.
  intros Hdec ->. unfold _send_receive. rewrite exchange_prefix, Hdec.
  run. same_state.
Qed.

Lemma _send_receive_passes d a t :
  Py.decode reply = Some d -> d = String a t -> a <> NACK ->
  _send_receive request c
  = Returned (Some d)
      (after_exchange request bs rest
         (emit DEBUG (ReceivedResponse (_format_message d)) c) c).
Proof.
  intros Hdec -> Hne. unfold _send_receive. rewrite exchange_prefix, Hdec.
  run. destruct (Ascii.eqb_spec a NACK) as [-> | _]; [congruence |].
  run. same_state.
Qed.

Lemma send_receive_undecodable :
  Py.decode reply = None ->
  send_receive request c
  = Returned (false, None)
      (after_exchange request bs rest (emit ERROR (FailedToParse reply) c) c).
Proof.
  intros Hdec. unfold send_receive.
  rewrite run_bind, (_send_receive_undecodable Hdec). reflexivity.
Qed.

Lemma send_receive_nack d t :
  Py.decode reply = Some d -> d = String NACK t ->
  send_receive request c
  = Returned (false, None)
      (after_exchange request bs rest (emit ERROR ReceivedNACK c) c).
Proof.
  intros Hdec Hd. unfold send_receive.
  rewrite run_bind, (_send_receive_nack d t Hdec Hd). reflexivity.
Qed.

Lemma send_receive_last_message d x y earlier a t :
  Py.decode reply = Some d -> d = String x y -> x <> NACK ->
  Py.drop_last (Py.split CR d) = earlier ++ [String a t] ->
  send_receive request c
  = Returned (verdict a t)
      (after_exchange request bs rest
         (emit DEBUG (ReceivedResponse (_format_message d)) c ++ warned d earlier c) c).
Proof.
  intros Hdec Hd Hne Hsplit. unfold send_receive.
  rewrite run_bind, (_send_receive_passes d x y Hdec Hd Hne).
  rewrite (classify_last_message d earlier a t _ Hsplit).
  f_equal. unfold warned. destruct earlier; same_state.
Qed.

End OneExchange.

End CommsFacts.

Section LinkClaims.
Import Comms LinkTerms.

Lemma multiple_warnings_app l1 l2 :
  multiple_warnings (l1 ++ l2) = multiple_warnings l1 + multiple_warnings l2.
Proof. unfold multiple_warnings. rewrite List.filter_app, length_app. reflexivity. Qed.

Lemma multiple_warnings_emit l m c :
  multiple_warnings (emit l m c)
  = if isEnabledFor l c && is_multiple_messages {| rec_level := l; rec_msg := m |}
    then 1 else 0.
Proof.
  unfold emit, multiple_warnings. destruct (isEnabledFor l c); simpl; [| reflexivity].
  destruct (is_multiple_messages _); reflexivity.
Qed.

Lemma multiple_warnings_after_exchange request bs rest said c :
  multiple_warnings (log (after_exchange request bs rest said c))
  = multiple_warnings (log c) + multiple_warnings said.
Proof.
  unfold after_exchange, after_send. simpl.
  rewrite !multiple_warnings_app, !multiple_warnings_emit.
  rewrite !andb_false_r. lia.
Qed.

Lemma multiple_warnings_warned d earlier c :
  earlier <> [] ->
  multiple_warnings (warned d earlier c) = if isEnabledFor WARNING c then 1 else 0.
Proof.
  intros Hne. destruct earlier; [congruence |]. unfold warned.
  rewrite multiple_warnings_emit. simpl. rewrite andb_true_r. reflexivity.
Qed.

(** C1 (as amended).  A reply with several CR-terminated messages is judged by
    its last message alone, with one "multiple messages" warning when logger
    Comms lets warnings through, provided its very first character is not NACK;
    when it is, the transaction is reported as failed whatever the last message
    is.  In particular the reply [\x06A\r\x06B\r] gives success with payload
    [B] and one warning. *)
Theorem last_message_governs_unless_nack_leads :
  (forall request bs rest c,
      Py.encode (request +:+ String CR EmptyString) = Some bs ->
      incoming c = Data reply_ackA_ackB :: rest ->
      isEnabledFor WARNING c = true ->
      exists c',
        send_receive request c = Returned (true, Some "B") c'
        /\ multiple_warnings (log c') = multiple_warnings (log c) + 1)
  /\ (forall request bs reply rest c d x y earlier a t,
        Py.encode (request +:+ String CR EmptyString) = Some bs ->
        incoming c = Data reply :: rest ->
        length reply <= RECV_BUFFER ->
        Py.decode reply = Some d ->
        d = String x y ->
        Py.drop_last (Py.split CR d) = earlier ++ [String a t] ->
        earlier <> [] ->
        exists c',
          send_receive request c
          = Returned (if Ascii.eqb x NACK then (false, None) else verdict a t) c'
          /\ multiple_warnings (log c')
             = multiple_warnings (log c)
               + (if Ascii.eqb x NACK then 0
                  else if isEnabledFor WARNING c then 1 else 0)).
Proof.
  assert (General : forall request bs reply rest c d x y earlier a t,
        Py.encode (request +:+ String CR EmptyString) = Some bs ->
        incoming c = Data reply :: rest ->
        length reply <= RECV_BUFFER ->
        Py.decode reply = Some d ->
        d = String x y ->
        Py.drop_last (Py.split CR d) = earlier ++ [String a t] ->
        earlier <> [] ->
        exists c',
          send_receive request c
          = Returned (if Ascii.eqb x NACK then (false, None) else verdict a t) c'
          /\ multiple_warnings (log c')
             = multiple_warnings (log c)
               + (if Ascii.eqb x NACK then 0
                  else if isEnabledFor WARNING c then 1 else 0)).
  { intros request bs reply rest c d x y earlier a t Henc Hin Hlen Hdec Hd Hsplit Hne.
    destruct (Ascii.eqb_spec x NACK) as [-> | Hx].
    - eexists. split.
      + exact (send_receive_nack request bs reply rest c Henc Hin Hlen d y Hdec Hd).
      + rewrite multiple_warnings_after_exchange, multiple_warnings_emit. simpl.
        rewrite andb_false_r. reflexivity.
    - eexists. split.
      + exact (send_receive_last_message request bs reply rest c Henc Hin Hlen
                 d x y earlier a t Hdec Hd Hx Hsplit).
      + rewrite multiple_warnings_after_exchange, multiple_warnings_app,
          multiple_warnings_emit, (multiple_warnings_warned _ _ _ Hne).
        simpl. rewrite andb_false_r. reflexivity. }
  split; [| exact General].
  intros request bs rest c Henc Hin Hen.
  destruct (General request bs reply_ackA_ackB rest c
              (String ACK (String "A" (String CR (String ACK (String "B" (String CR EmptyString))))))
              ACK (String "A" (String CR (String ACK (String "B" (String CR EmptyString)))))
              [String ACK "A"] ACK "B"%string Henc Hin)
    as [c' [Hres Hlog]]; try reflexivity.
  - unfold reply_ackA_ackB, RECV_BUFFER. simpl. lia.
  - intros Hnil. discriminate Hnil.
  - exists c'. rewrite Hen in Hlog. split; [exact Hres | exact Hlog].
Qed.

Lemma last_message_governs_witness :
  exists c',
    send_receive "aF" (connected [Data reply_ackA_ackB]) = Returned (true, Some "B") c'
    /\ multiple_warnings (log c') = 1.
Proof.
  apply (proj2 last_message_governs_unless_nack_leads
           "aF" [x61; x46; x0d] reply_ackA_ackB [] (connected [Data reply_ackA_ackB])
           (String ACK (String "A" (String CR (String ACK (String "B" (String CR EmptyString))))))
           ACK (String "A" (String CR (String ACK (String "B" (String CR EmptyString)))))
           [String ACK "A"] ACK "B"%string);
    try reflexivity.
  - unfold reply_ackA_ackB, RECV_BUFFER. simpl. lia.
  - intros Hnil. discriminate Hnil.
Defined.

(** C1 as stated fails: two replies with the same last message, [\x06B], are
    judged differently, because the one that begins with NACK is rejected
    before its messages are looked at. *)
Lemma leading_nack_overrides_last_message :
  Py.item_last (Py.drop_last (Py.split CR (string_of_list_byte reply_ackA_ackB)))
  = Py.item_last (Py.drop_last (Py.split CR (string_of_list_byte reply_nackA_ackB)))
  /\ value_of (send_receive "aF" (connected [Data reply_ackA_ackB]))
     = Some (true, Some "B"%string)
  /\ value_of (send_receive "aF" (connected [Data reply_nackA_ackB]))
     = Some (false, None).
Proof. repeat split; vm_compute; reflexivity. Qed.

Lemma send_receive_silent request bs c :
  Py.encode (request +:+ String CR EmptyString) = Some bs ->
  incoming c = [] \/ (exists rest, incoming c = Silence :: rest) ->
  exists c', send_receive request c = Raised SocketTimeout c'.
Proof.
  intros Henc Hin. unfold send_receive, _send_receive.
  rewrite !run_bind, (_send_returns _ _ _ Henc).
  destruct (socket_recv_silent (after_send request bs c)) as [c' Hc']; [exact Hin |].
  rewrite run_bind, Hc'. eauto.
Qed.

(** C2 (as amended).  With an encodable request, [send_receive] reports
    undecodable bytes and a leading NACK as [(False, None)] without raising, and
    returns a (success, payload) pair, with no payload on failure, for every
    decoded reply that does not begin with NACK and whose last CR-terminated
    message is not empty.  A receive that times out is not turned into a
    result: [socket.timeout] leaves [send_receive] as an exception. *)
Theorem send_receive_reports_replies_but_raises_timeout request bs c :
  Py.encode (request +:+ String CR EmptyString) = Some bs ->
  (incoming c = [] \/ (exists rest, incoming c = Silence :: rest) ->
   exists c', send_receive request c = Raised SocketTimeout c')
  /\ (forall reply rest,
        incoming c = Data reply :: rest ->
        length reply <= RECV_BUFFER ->
        (Py.decode reply = None ->
         exists c', send_receive request c = Returned (false, None) c')
        /\ (forall d t,
              Py.decode reply = Some d -> d = String NACK t ->
              exists c', send_receive request c = Returned (false, None) c')
        /\ (forall d x y earlier a t,
              Py.decode reply = Some d -> d = String x y -> x <> NACK ->
              Py.drop_last (Py.split CR d) = earlier ++ [String a t] ->
              exists ok payload c',
                send_receive request c = Returned (ok, payload) c'
                /\ ok = Ascii.eqb a ACK
                /\ (ok = false -> payload = None))).
Proof.
  intros Henc. split; [apply (send_receive_silent request bs c Henc) |].
  intros reply rest Hin Hlen. repeat split.
  - intros Hdec. eexists.
    exact (send_receive_undecodable request bs reply rest c Henc Hin Hlen Hdec).
  - intros d t Hdec Hd. eexists.
    exact (send_receive_nack request bs reply rest c Henc Hin Hlen d t Hdec Hd).
  - intros d x y earlier a t Hdec Hd Hx Hsplit.
    exists (fst (verdict a t)), (snd (verdict a t)). eexists. split; [| split].
    + rewrite <- surjective_pairing.
      exact (send_receive_last_message request bs reply rest c Henc Hin Hlen
               d x y earlier a t Hdec Hd Hx Hsplit).
    + unfold verdict. destruct (Ascii.eqb a ACK); reflexivity.
    + unfold verdict. destruct (Ascii.eqb a ACK); simpl; [discriminate | reflexivity].
Qed.

Lemma send_receive_reports_replies_witness :
  (exists c', send_receive "aK" (connected [Silence]) = Raised SocketTimeout c')
  /\ (exists c', send_receive "aK" (connected [Data reply_nack]) = Returned (false, None) c').
Proof.
  destruct (send_receive_reports_replies_but_raises_timeout
              "aK" [x61; x4b; x0d] (connected [Silence]) eq_refl) as [Hsilent _].
  destruct (send_receive_reports_replies_but_raises_timeout
              "aK" [x61; x4b; x0d] (connected [Data reply_nack]) eq_refl) as [_ Hreply].
  split.
  - apply Hsilent. right. exists []. reflexivity.
  - destruct (Hreply reply_nack [] eq_refl) as [_ [Hnack _]].
    + unfold reply_nack, RECV_BUFFER. simpl. lia.
    + apply (Hnack (String NACK (String CR EmptyString)) (String CR EmptyString));
        reflexivity.
Defined.

(** C2 as stated fails: when the device stays silent, and when the reply lacks
    its CR, [send_receive] raises instead of returning a pair. *)
Lemma send_receive_can_raise :
  (exists c', send_receive "aK" (connected [Silence]) = Raised SocketTimeout c')
  /\ (exists c', send_receive "aK" (connected [Data reply_cut_short]) = Raised IndexError c').
Proof. split; eexists; vm_compute; reflexivity. Qed.

(** C3 (as amended).  On the reply [\x06@\r] the transaction succeeds and its
    payload is the one-character string [@]. *)
Theorem ack_at_gives_payload_at request bs rest c :
  Py.encode (request +:+ String CR EmptyString) = Some bs ->
  incoming c = Data reply_ack_at :: rest ->
  exists c', send_receive request c = Returned (true, Some "@"%string) c'.
Proof.
  intros Henc Hin. eexists.
  apply (send_receive_last_message request bs reply_ack_at rest c Henc Hin)
    with (d := String ACK (String "@" (String CR EmptyString)))
         (x := ACK) (y := String "@" (String CR EmptyString))
         (earlier := []) (a := ACK) (t := "@"%string); try reflexivity.
  - unfold reply_ack_at, RECV_BUFFER. simpl. lia.
  - discriminate.
Qed.

Lemma ack_at_gives_payload_at_witness :
  exists c', send_receive "aE3" (connected [Data reply_ack_at])
             = Returned (true, Some "@"%string) c'.
Proof.
  apply (ack_at_gives_payload_at "aE3" [x61; x45; x33; x0d] []); reflexivity.
Defined.

(** C3 as stated fails: the payload of that reply is neither absent nor the
    empty string. *)
Lemma ack_at_payload_is_not_empty :
  value_of (send_receive "aE3" (connected [Data reply_ack_at]))
  = Some (true, Some "@"%string)
  /\ Some "@"%string <> @None string
  /\ Some "@"%string <> Some EmptyString.
Proof. split; [vm_compute; reflexivity | split; discriminate]. Qed.

Lemma or_None_not_empty s : Py.or_None s <> Some EmptyString.
Proof. destruct s; simpl; congruence. Qed.

Lemma classify_payload d c payload c' :
  classify d c = Returned (true, payload) c' -> payload <> Some EmptyString.
Proof.
  unfold classify. rewrite !run_bind.
  destruct ((if (1 <? length (Py.drop_last (Py.split CR d)))%nat
             then log_call WARNING (MultipleMessages (_format_message d))
             else ret tt) c) as [[] c1 | e c1]; [| discriminate].
  rewrite !run_bind.
  destruct (Py.item_last (Py.drop_last (Py.split CR d))) as [m |]; [| discriminate].
  simpl. rewrite !run_bind.
  destruct (Py.index0 m) as [a |]; [| discriminate].
  simpl. destruct (Ascii.eqb a ACK); intros H; inversion H.
  apply or_None_not_empty.
Qed.

(** C10.  The payload of a successful transaction is never the empty string:
    when the last message holds nothing but the acknowledge character, as in
    the reply [\x06\r], the payload is none. *)
Theorem successful_payload_is_never_empty :
  (forall request c payload c',
      send_receive request c = Returned (true, payload) c' ->
      payload <> Some EmptyString)
  /\ (forall request bs reply rest c d x y earlier t,
        Py.encode (request +:+ String CR EmptyString) = Some bs ->
        incoming c = Data reply :: rest ->
        length reply <= RECV_BUFFER ->
        Py.decode reply = Some d -> d = String x y -> x <> NACK ->
        Py.drop_last (Py.split CR d) = earlier ++ [String ACK t] ->
        Py.strip CR (Py.strip ACK (String ACK t)) = EmptyString ->
        exists c', send_receive request c = Returned (true, None) c')
  /\ (forall request bs rest c,
        Py.encode (request +:+ String CR EmptyString) = Some bs ->
        incoming c = Data reply_ack :: rest ->
        exists c', send_receive request c = Returned (true, None) c').
Proof.
  assert (Stripped : forall request bs reply rest c d x y earlier t,
        Py.encode (request +:+ String CR EmptyString) = Some bs ->
        incoming c = Data reply :: rest ->
        length reply <= RECV_BUFFER ->
        Py.decode reply = Some d -> d = String x y -> x <> NACK ->
        Py.drop_last (Py.split CR d) = earlier ++ [String ACK t] ->
        Py.strip CR (Py.strip ACK (String ACK t)) = EmptyString ->
        exists c', send_receive request c = Returned (true, None) c').
  { intros request bs reply rest c d x y earlier t Henc Hin Hlen Hdec Hd Hx Hsplit Hstrip.
    eexists.
    rewrite (send_receive_last_message request bs reply rest c Henc Hin Hlen
               d x y earlier ACK t Hdec Hd Hx Hsplit).
    unfold verdict. simpl Ascii.eqb. cbv iota. rewrite Hstrip. reflexivity. }
  split; [| split; [exact Stripped |]].
  - intros request c payload c'. unfold send_receive. rewrite run_bind.
    destruct (_send_receive request c) as [[d |] c1 | e c1]; try discriminate.
    apply classify_payload.
  - intros request bs rest c Henc Hin.
    apply (Stripped request bs reply_ack rest c
             (String ACK (String CR EmptyString)) ACK (String CR EmptyString)
             [] EmptyString Henc Hin); try reflexivity.
    + unfold reply_ack, RECV_BUFFER. simpl. lia.
    + discriminate.
Qed.

Lemma successful_payload_is_never_empty_witness :
  Some "@"%string <> Some EmptyString
  /\ exists c', send_receive "aK" (connected [Data reply_ack]) = Returned (true, None) c'.
Proof.
  destruct successful_payload_is_never_empty as [Never [_ Bare]].
  split.
  - apply (Never "aF"%string (connected [Data reply_ack_at]) (Some "@"%string)
             (state_of (send_receive "aF" (connected [Data reply_ack_at])))).
    vm_compute. reflexivity.
  - apply (Bare "aK"%string [x61; x4b; x0d] []); reflexivity.
Defined.

End LinkClaims.

(** ** The Device Controller *)

Ltac run_controller :=
  repeat (unfold mbind, M_bind, bind, mret, M_ret, ret, modify, raise, get,
            Microlab.log_call, Microlab.sleep, Microlab.set_comms_log_level; simpl).

Section ControllerFacts.
Import Microlab ControllerTerms.

Lemma send_receive_wire request bs c :
  Py.encode (request +:+ String Comms.CR EmptyString) = Some bs ->
  Comms.wire (state_of (Comms.send_receive request c)) = Comms.wire c ++ [bs].
Proof.
  intros Henc. unfold Comms.send_receive, Comms._send_receive.
  rewrite !run_bind, (_send_returns _ _ _ Henc). rewrite run_bind.
  unfold Comms.socket_recv. simpl.
  destruct (Comms.incoming c) as [| [reply |] rest]; simpl; try reflexivity.
  assert (After : forall response c1,
             Comms.wire c1 = Comms.wire c ++ [bs] ->
             Comms.wire
               (state_of
                  (match
                      match Py.decode response with
                      | Some decoded_response =>
                          or_raise (Py.index0 decoded_response) IndexError
                            ≫= λ c0 : ascii,
                              if Ascii.eqb c0 Comms.NACK
                              then Comms.log_call Comms.ERROR Comms.ReceivedNACK
                                     ≫= λ _ : (), ret None
                              else Comms.log_call Comms.DEBUG
                                     (Comms.ReceivedResponse
                                        (Comms._format_message decoded_response))
                                     ≫= λ _ : (), ret (Some decoded_response)
                      | None =>
                          Comms.log_call Comms.ERROR (Comms.FailedToParse response)
                            ≫= λ _ : (), ret None
                      end c1
                    with
                    | Returned a s' =>
                        match a with
                        | Some decoded_response => Comms.classify decoded_response
                        | None => ret (false, None)
                        end s'
                    | Raised e s' => Raised e s'
                    end)) = Comms.wire c ++ [bs]).
  { intros response c1 Hc1. destruct (Py.decode response) as [d |]; run; [| exact Hc1].
    destruct (Py.index0 d) as [x |]; run; [| exact Hc1].
    destruct (Ascii.eqb x Comms.NACK); run; [exact Hc1 |].
    unfold Comms.classify. run.
    destruct (1 <? length (Py.drop_last (Py.split Comms.CR d)))%nat; run;
      destruct (Py.item_last (Py.drop_last (Py.split Comms.CR d))) as [m |]; run;
      try exact Hc1;
      destruct (Py.index0 m) as [a |]; run; try exact Hc1;
      destruct (Ascii.eqb a Comms.ACK); run; exact Hc1. }
  destruct (drop Comms.RECV_BUFFER reply); apply After; reflexivity.
Qed.

Lemma send_receive_failure_has_no_payload request c payload c' :
  Comms.send_receive request c = Returned (false, payload) c' -> payload = None.
Proof.
  unfold Comms.send_receive. rewrite run_bind.
  destruct (Comms._send_receive request c) as [[d |] c1 | e c1]; try discriminate.
  - unfold Comms.classify. rewrite !run_bind.
    destruct ((if (1 <? length (Py.drop_last (Py.split Comms.CR d)))%nat
               then Comms.log_call Comms.WARNING
                      (Comms.MultipleMessages (Comms._format_message d))
               else ret tt) c1) as [[] c2 | e c2]; [| discriminate].
    rewrite !run_bind.
    destruct (Py.item_last (Py.drop_last (Py.split Comms.CR d))) as [m |];
      [| discriminate].
    simpl. rewrite !run_bind.
    destruct (Py.index0 m) as [a |]; [| discriminate].
    simpl. destruct (Ascii.eqb a Comms.ACK); intros H; inversion H. reflexivity.
  - intros H. inversion H. reflexivity.
Qed.

Lemma on_comms_run {A} (m : M Comms.t A) s :
  on_comms m s = match m (_comms s) with
                 | Returned a c => Returned a (set_comms c s)
                 | Raised e c => Raised e (set_comms c s)
                 end.
Proof. reflexivity. Qed.

Lemma _reset_cycle_run address s :
  _reset_cycle address s
  = match Comms.send_receive (address +:+ "K") (_comms s) with
    | Returned r c => Returned tt (after_reset r c s)
    | Raised e c => Raised e (set_comms c s)
    end.
Proof.
  unfold _reset_cycle, halt_execution. rewrite !run_bind, on_comms_run.
  destruct (Comms.send_receive (address +:+ "K") (_comms s)) as [[ok p] c | e c];
    [| reflexivity].
  unfold halt_record. destruct ok; reflexivity.
Qed.

Lemma send_command_run command address s :
  send_command command address s
  = match Comms.send_receive (address +:+ Command.string command) (_comms s) with
    | Returned _ c => Returned tt (set_comms c s)
    | Raised e c => Raised e (set_comms c s)
    end.
Proof.
  unfold send_command. rewrite run_bind, on_comms_run.
  destruct (Comms.send_receive _ _); reflexivity.
Qed.

End ControllerFacts.

Section ControllerClaims.
Import Microlab ControllerTerms.

(** C4 (as amended).  [send_command] performs exactly one transaction, whose
    body is the address followed by the command's rendered string, and drops
    the whole result of it: the link is left as that transaction leaves it, one
    frame further, and the value handed back is the same whether the
    transaction succeeded or failed. *)
Theorem send_command_drops_the_result command address s :
  send_command command address s
  = match Comms.send_receive (address +:+ Command.string command) (_comms s) with
    | Returned _ c => Returned tt (set_comms c s)
    | Raised e c => Raised e (set_comms c s)
    end
  /\ forall bs,
      Py.encode ((address +:+ Command.string command) +:+ String Comms.CR EmptyString)
      = Some bs ->
      Comms.wire (_comms (state_of (send_command command address s)))
      = Comms.wire (_comms s) ++ [bs].
Proof.
  split; [apply send_command_run |].
  intros bs Henc. rewrite send_command_run.
  rewrite <- (send_receive_wire _ bs (_comms s) Henc).
  destruct (Comms.send_receive _ _); reflexivity.
Qed.

(** C4 as stated fails: an acknowledged and a refused command hand the same
    value back to the caller of [send_command]. *)
Lemma send_command_hides_the_outcome :
  let command := {| Command.string := "BM100" |} in
  value_of (send_command command "a" (init (Comms.connected [Comms.Data LinkTerms.reply_ack])))
  = Some tt
  /\ value_of (send_command command "a" (init (Comms.connected [Comms.Data LinkTerms.reply_nack])))
     = Some tt
  /\ value_of (Comms.send_receive "aBM100" (Comms.connected [Comms.Data LinkTerms.reply_ack]))
     = Some (true, None)
  /\ value_of (Comms.send_receive "aBM100" (Comms.connected [Comms.Data LinkTerms.reply_nack]))
     = Some (false, None).
Proof. repeat split; vm_compute; reflexivity. Qed.

Variable Y_INFO_RESPONSE : string.

Local Abbreviation step := (_cycle_commands Y_INFO_RESPONSE).

Lemma step_reset commands address pc s :
  pc = While \/ (exists rest, pc = IfStop rest) ->
  _stop_requested s = true ->
  step commands address pc s
  = match Comms.send_receive (address +:+ "K") (_comms s) with
    | Returned r c => (Done, after_reset r c s)
    | Raised e c => (Dead e, set_comms c s)
    end.
Proof.
  intros [-> | [rest ->]] Hstop; simpl; rewrite Hstop, _reset_cycle_run;
    destruct (Comms.send_receive _ _); reflexivity.
Qed.

Lemma moves_succ n commands address pc s :
  moves Y_INFO_RESPONSE (S n) commands address pc s
  = moves Y_INFO_RESPONSE n commands address
      (fst (step commands address pc s)) (snd (step commands address pc s)).
Proof. simpl. destruct (step commands address pc s). reflexivity. Qed.

Lemma step_poll_cases commands address rest s pc' s' :
  step commands address (Poll rest) s = (pc', s') ->
  (exists e, pc' = Dead e)
  \/ ((pc' = IfStop rest \/ pc' = For rest) /\ _stop_requested s' = _stop_requested s).
Proof.
  simpl. rewrite on_comms_run.
  destruct (Comms.send_receive _ _) as [r c | e c]; simpl; intros H.
  - right. destruct (Py.ne (snd r) Y_INFO_RESPONSE); inversion H; auto.
  - left. inversion H. eauto.
Qed.

Lemma step_for_cases commands address command rest s pc' s' :
  step commands address (For (command :: rest)) s = (pc', s') ->
  (exists e, pc' = Dead e)
  \/ (pc' = Poll rest /\ _stop_requested s' = _stop_requested s).
Proof.
  simpl. rewrite send_command_run.
  destruct (Comms.send_receive _ _) as [r c | e c]; simpl; intros H; inversion H; eauto.
Qed.

Lemma ends_after_step b commands address pc s pc' s' :
  step commands address pc s = (pc', s') ->
  ends_within Y_INFO_RESPONSE b commands address pc' s' ->
  ends_within Y_INFO_RESPONSE (S b) commands address pc s.
Proof.
  intros Hstep (n & Hn & Hend). exists (S n). split; [lia |].
  rewrite moves_succ, Hstep. exact Hend.
Qed.

Lemma ends_within_more b b' commands address pc s :
  b <= b' ->
  ends_within Y_INFO_RESPONSE b commands address pc s ->
  ends_within Y_INFO_RESPONSE b' commands address pc s.
Proof. intros Hle (n & Hn & Hend). exists n. split; [lia | exact Hend]. Qed.

Lemma dead_has_ended b commands address e s :
  ends_within Y_INFO_RESPONSE b commands address (Dead e) s.
Proof. exists 0. split; [lia |]. right. exists e. reflexivity. Qed.

Lemma reset_ends commands address pc s :
  pc = While \/ (exists rest, pc = IfStop rest) ->
  _stop_requested s = true ->
  ends_within Y_INFO_RESPONSE 1 commands address pc s.
Proof.
  intros Hpc Hstop. exists 1. split; [lia |].
  rewrite moves_succ. simpl moves.
  rewrite (step_reset commands address pc s Hpc Hstop).
  destruct (Comms.send_receive _ _) as [r c | e c].
  - left. repeat split.
  - right. exists e. reflexivity.
Qed.

(** With the stop flag set, the thread is over before it has sent all the
    commands still pending in the current pass, each followed by one poll. *)
Lemma stop_ends_pass commands address rest :
  forall s,
    _stop_requested s = true ->
    ends_within Y_INFO_RESPONSE (2 * length rest + 2) commands address (For rest) s
    /\ ends_within Y_INFO_RESPONSE (2 * length rest + 3) commands address (Poll rest) s.
Proof.
  assert (Hpoll : forall rest0,
             (forall s, _stop_requested s = true ->
                        ends_within Y_INFO_RESPONSE (2 * length rest0 + 2)
                                    commands address (For rest0) s) ->
             forall s, _stop_requested s = true ->
                       ends_within Y_INFO_RESPONSE (2 * length rest0 + 3)
                                   commands address (Poll rest0) s).
  { intros rest0 Hfor s Hstop.
    destruct (step commands address (Poll rest0) s) as [pc' s'] eqn:Hstep.
    replace (2 * length rest0 + 3) with (S (2 * length rest0 + 2)) by lia.
    apply (ends_after_step _ _ _ _ _ pc' s' Hstep).
    destruct (step_poll_cases _ _ _ _ _ _ Hstep) as [[e ->] | [[-> | ->] Hflag]].
    - apply dead_has_ended.
    - apply (ends_within_more 1); [lia |].
      apply reset_ends; [eauto | congruence].
    - apply Hfor. congruence. }
  induction rest as [| command rest IH]; intros s Hstop.
  - assert (Hfor : forall u, _stop_requested u = true ->
                             ends_within Y_INFO_RESPONSE (2 * length (@nil Command.t) + 2)
                                         commands address (For []) u).
    { intros u Hu. apply (ends_after_step 1 _ _ (For []) u While u); [reflexivity |].
      apply reset_ends; [auto | exact Hu]. }
    split; [apply Hfor, Hstop | apply (Hpoll [] Hfor), Hstop].
  - assert (Hfor : forall u, _stop_requested u = true ->
                             ends_within Y_INFO_RESPONSE
                                         (2 * length (command :: rest) + 2)
                                         commands address (For (command :: rest)) u).
    { intros u Hu.
      destruct (step commands address (For (command :: rest)) u) as [pc' u'] eqn:Hstep.
      replace (2 * length (command :: rest) + 2) with (S (2 * length rest + 3))
        by (simpl; lia).
      apply (ends_after_step _ _ _ _ _ pc' u' Hstep).
      destruct (step_for_cases _ _ _ _ _ _ _ Hstep) as [[e ->] | [-> Hflag]].
      - apply dead_has_ended.
      - apply IH. congruence. }
    split; [apply Hfor, Hstop | apply (Hpoll _ Hfor), Hstop].
Qed.

(** With the stop flag set, a thread that is alive is over within a number of
    moves bounded by the commands pending in its current pass. *)
Lemma stop_ends_thread commands address pc s :
  live pc = true ->
  _stop_requested s = true ->
  ends_within Y_INFO_RESPONSE (2 * length (pending pc) + 4) commands address pc s.
Proof.
  intros Hlive Hstop.
  destruct pc as [| | rest | rest | rest | rest | | e]; simpl pending;
    try discriminate Hlive.
  - apply (ends_after_step _ _ _ Enter s While
             (set_comms (Comms.set_level Comms.ERROR (_comms s)) s)); [reflexivity |].
    apply (ends_within_more 1); [simpl; lia |]. apply reset_ends; [auto | exact Hstop].
  - apply (ends_within_more 1); [simpl; lia |]. apply reset_ends; [auto | exact Hstop].
  - apply (ends_within_more (2 * length rest + 2)); [lia |].
    apply stop_ends_pass, Hstop.
  - apply (ends_within_more (2 * length rest + 3)); [lia |].
    apply stop_ends_pass, Hstop.
  - apply (ends_within_more 1); [lia |]. apply reset_ends; [eauto | exact Hstop].
  - replace (2 * length rest + 4) with (S (2 * length rest + 3)) by lia.
    apply (ends_after_step _ _ _ (Sleep rest) s (Poll rest) (nap s)); [reflexivity |].
    apply stop_ends_pass. exact Hstop.
Qed.

(** C7 (as amended).  When the loop finds the stop flag set, at the top of the
    outer loop or after a poll, it runs the halt transaction; when that
    transaction returns, acknowledged or not, the loop returns with the flag
    cleared and the thread list emptied, and this is the only way the loop
    returns.  Once the flag is set the thread is over within a number of moves
    bounded by the commands pending in its pass: it has returned as said, or an
    exception raised by a transaction has ended it. *)
Theorem stop_observed_resets_when_halt_returns commands address :
  (forall pc s r c,
      pc = While \/ (exists rest, pc = IfStop rest) ->
      _stop_requested s = true ->
      Comms.send_receive (address +:+ "K") (_comms s) = Returned r c ->
      step commands address pc s = (Done, after_reset r c s)
      /\ _comms (after_reset r c s) = c
      /\ _stop_requested (after_reset r c s) = false
      /\ _threads (after_reset r c s) = []
      /\ forall bs,
          Py.encode ((address +:+ "K") +:+ String Comms.CR EmptyString) = Some bs ->
          Comms.wire c = Comms.wire (_comms s) ++ [bs])
  /\ (forall pc s s',
        pc <> Done ->
        step commands address pc s = (Done, s') ->
        (pc = While \/ exists rest, pc = IfStop rest)
        /\ _stop_requested s = true
        /\ (exists r, Comms.send_receive (address +:+ "K") (_comms s)
                      = Returned r (_comms s'))
        /\ _stop_requested s' = false
        /\ _threads s' = [])
  /\ (forall pc s,
        live pc = true ->
        _stop_requested s = true ->
        ends_within Y_INFO_RESPONSE (2 * length (pending pc) + 4) commands address pc s).
Proof.
  split; [| split; [| apply stop_ends_thread]].
  - intros pc s r c Hpc Hstop Hhalt.
    rewrite (step_reset commands address pc s Hpc Hstop), Hhalt.
    repeat split.
    intros bs Henc. pose proof (send_receive_wire _ bs (_comms s) Henc) as Hwire.
    rewrite Hhalt in Hwire. exact Hwire.
  - intros pc s s' Hpc Hstep.
    assert (Hobs : (pc = While \/ exists rest, pc = IfStop rest)
                   /\ _stop_requested s = true).
    { destruct pc as [| | [| command rest] | rest | rest | rest | | e]; simpl in Hstep;
        try congruence.
      - destruct (_stop_requested s) eqn:Hstop; [| congruence]. auto.
      - destruct (send_command command address s); simpl in Hstep; congruence.
      - destruct (on_comms _ s) as [r s1 | e s1]; simpl in Hstep; [| congruence].
        destruct (Py.ne (snd r) Y_INFO_RESPONSE); congruence.
      - destruct (_stop_requested s) eqn:Hstop; [| congruence]. eauto. }
    destruct Hobs as [Hat Hstop]. split; [exact Hat | split; [exact Hstop |]].
    rewrite (step_reset commands address pc s Hat Hstop) in Hstep.
    destruct (Comms.send_receive (address +:+ "K") (_comms s)) as [r c | e c] eqn:Hhalt;
      [| congruence].
    inversion Hstep; subst s'. repeat split. exists r. reflexivity.
Qed.

Lemma on_comms_keeps_controller {A} (m : M Comms.t A) s :
  _stop_requested (state_of (on_comms m s)) = _stop_requested s
  /\ _threads (state_of (on_comms m s)) = _threads s.
Proof. rewrite on_comms_run. destruct (m (_comms s)); split; reflexivity. Qed.

Lemma one_failed_poll commands address rest s payload s' :
  on_comms (Comms.send_receive (address +:+ INSTRUMENT_DONE)) s
  = Returned (false, payload) s' ->
  step commands address (Poll rest) s = (IfStop rest, s')
  /\ live (IfStop rest) = true
  /\ _stop_requested s' = _stop_requested s
  /\ _threads s' = _threads s
  /\ (_stop_requested s' = false ->
      step commands address (IfStop rest) s' = (Sleep rest, s')
      /\ step commands address (Sleep rest) s' = (Poll rest, nap s'))
  /\ (forall u ok busy u',
        on_comms (Comms.send_receive (address +:+ INSTRUMENT_DONE)) u
        = Returned (ok, busy) u' ->
        Py.ne busy Y_INFO_RESPONSE = true ->
        step commands address (Poll rest) u = (IfStop rest, u')).
Proof.
  intros Hpoll.
  assert (Hnone : payload = None).
  { rewrite on_comms_run in Hpoll.
    destruct (Comms.send_receive (address +:+ INSTRUMENT_DONE) (_comms s))
      as [[ok p] c | e c] eqn:Hsr; [| discriminate].
    inversion Hpoll; subst.
    exact (send_receive_failure_has_no_payload _ _ _ _ Hsr). }
  subst payload.
  pose proof (on_comms_keeps_controller
                (Comms.send_receive (address +:+ INSTRUMENT_DONE)) s) as [Hflag Hthreads].
  rewrite Hpoll in Hflag, Hthreads. simpl in Hflag, Hthreads.
  split; [| split; [| split; [| split; [| split]]]].
  - simpl. rewrite Hpoll. reflexivity.
  - reflexivity.
  - exact Hflag.
  - exact Hthreads.
  - intros Hclear. simpl. rewrite Hclear. split; reflexivity.
  - intros u ok busy u' Hu Hbusy. simpl. rewrite Hu. simpl. rewrite Hbusy. reflexivity.
Qed.

Lemma on_comms_keeps_naps {A} (m : M Comms.t A) s :
  naps (state_of (on_comms m s)) = naps s.
Proof. rewrite on_comms_run. destruct (m (_comms s)); reflexivity. Qed.

Lemma polls_go_on commands address rest k :
  forall s,
    _stop_requested s = false ->
    polls_fail address k s ->
    exists s',
      moves Y_INFO_RESPONSE (k * 3) commands address (Poll rest) s = (Poll rest, s')
      /\ naps s' = naps s + k
      /\ _stop_requested s' = false
      /\ _threads s' = _threads s.
Proof.
  induction k as [| k IH]; intros s Hclear Hfail.
  - exists s. simpl. repeat split; [lia | exact Hclear].
  - destruct Hfail as (payload & s1 & Hpoll & Hrest).
    destruct (one_failed_poll commands address rest s payload s1 Hpoll)
      as (Hstep & _ & Hflag & Hthreads & Hnext & _).
    rewrite Hclear in Hflag. destruct (Hnext Hflag) as [Hlook Hsleep].
    destruct (IH (nap s1) Hflag Hrest) as (s' & Hmoves & Hnaps & Hflag' & Hthreads').
    exists s'. change (S k * 3) with (S (S (S (k * 3)))).
    rewrite moves_succ, Hstep. cbn [fst snd].
    rewrite moves_succ, Hlook. cbn [fst snd].
    rewrite moves_succ, Hsleep. cbn [fst snd].
    split; [exact Hmoves |]. split; [| split; [exact Hflag' |]].
    + pose proof (on_comms_keeps_naps
                    (Comms.send_receive (address +:+ INSTRUMENT_DONE)) s) as Hsame.
      rewrite Hpoll in Hsame. simpl in Hsame.
      rewrite Hnaps. simpl. lia.
    + rewrite Hthreads'. simpl. exact Hthreads.
Qed.

(** C8.  A busy-poll that comes back as a failure is taken exactly as a
    successful reply other than "idle and buffer empty": the loop goes on to
    look at the stop flag and, the flag being clear, sleeps and polls again for
    the same command; the failed poll neither ends the thread nor touches the
    stop flag or the thread list.  So long as the polls fail and nobody
    asks for a stop, the loop stays at the same command, one sleep per poll. *)
Theorem failed_poll_counts_as_not_idle commands address rest :
  (forall s payload s',
      on_comms (Comms.send_receive (address +:+ INSTRUMENT_DONE)) s
      = Returned (false, payload) s' ->
      step commands address (Poll rest) s = (IfStop rest, s')
      /\ live (IfStop rest) = true
      /\ _stop_requested s' = _stop_requested s
      /\ _threads s' = _threads s
      /\ (_stop_requested s' = false ->
          step commands address (IfStop rest) s' = (Sleep rest, s')
          /\ step commands address (Sleep rest) s' = (Poll rest, nap s'))
      /\ (forall u ok busy u',
            on_comms (Comms.send_receive (address +:+ INSTRUMENT_DONE)) u
            = Returned (ok, busy) u' ->
            Py.ne busy Y_INFO_RESPONSE = true ->
            step commands address (Poll rest) u = (IfStop rest, u')))
  /\ (forall k s,
        _stop_requested s = false ->
        polls_fail address k s ->
        exists s',
          moves Y_INFO_RESPONSE (k * 3) commands address (Poll rest) s = (Poll rest, s')
          /\ naps s' = naps s + k
          /\ _stop_requested s' = false
          /\ _threads s' = _threads s).
Proof.
  split.
  - intros s payload s'. apply one_failed_poll.
  - intros k. apply polls_go_on.
Qed.

End ControllerClaims.

Section ControllerWitnesses.
Import Microlab ControllerTerms.

Lemma send_command_drops_the_result_witness :
  Comms.wire (_comms (state_of (send_command {| Command.string := "BM100" |} "a"
                                  (init (Comms.connected [Comms.Data LinkTerms.reply_nack])))))
  = [] ++ [[x61; x42; x4d; x31; x30; x30; x0d]].
Proof.
  apply (proj2 (send_command_drops_the_result
                  {| Command.string := "BM100" |} "a"
                  (init (Comms.connected [Comms.Data LinkTerms.reply_nack])))).
  reflexivity.
Defined.

Lemma stop_observed_resets_witness :
  _cycle_commands "Y" [] "a" While (stopping [Comms.Data LinkTerms.reply_nack])
  = (Done, after_reset (false, None)
             (state_of (Comms.send_receive "aK"
                          (Comms.connected [Comms.Data LinkTerms.reply_nack])))
             (stopping [Comms.Data LinkTerms.reply_nack])).
Proof.
  apply (proj1 (stop_observed_resets_when_halt_returns "Y" [] "a")
           While (stopping [Comms.Data LinkTerms.reply_nack])).
  - left. reflexivity.
  - reflexivity.
  - vm_compute. reflexivity.
Defined.

(** C7 as stated fails: when the halt transaction raises, here because the
    device stays silent or its reply lacks the CR, the thread ends with the
    stop flag still set and the thread list still holding it. *)
Lemma stop_observed_but_cycle_left_half_stopped :
  let s := stopping [Comms.Silence] in
  let s' := snd (_cycle_commands "Y" [] "a" While s) in
  fst (_cycle_commands "Y" [] "a" While s) = Dead SocketTimeout
  /\ _stop_requested s' = true
  /\ _threads s' = _threads s
  /\ _threads s' <> []
  /\ fst (_cycle_commands "Y" [] "a" (IfStop [])
            (stopping [Comms.Data LinkTerms.reply_cut_short])) = Dead IndexError.
Proof. repeat split; try (vm_compute; reflexivity). vm_compute. discriminate. Qed.

Lemma failed_poll_counts_as_not_idle_witness :
  _cycle_commands "Y" [] "a" (Poll [])
    (cycling [Comms.Data LinkTerms.reply_nack; Comms.Data LinkTerms.reply_nack])
  = (IfStop [],
     state_of (on_comms (Comms.send_receive "aF")
                 (cycling [Comms.Data LinkTerms.reply_nack;
                           Comms.Data LinkTerms.reply_nack])))
  /\ exists s',
      moves "Y" 6 [] "a" (Poll [])
        (cycling [Comms.Data LinkTerms.reply_nack; Comms.Data LinkTerms.reply_nack])
      = (Poll [], s')
      /\ naps s' = 2.
Proof.
  destruct (failed_poll_counts_as_not_idle "Y" [] "a" []) as [Once Again].
  split.
  - apply (Once (cycling [Comms.Data LinkTerms.reply_nack; Comms.Data LinkTerms.reply_nack])
             None).
    vm_compute. reflexivity.
  - destruct (Again 2 (cycling [Comms.Data LinkTerms.reply_nack;
                                Comms.Data LinkTerms.reply_nack]))
      as (s' & Hmoves & Hnaps & _).
    + reflexivity.
    + simpl. eexists _, _. split; [vm_compute; reflexivity |].
      eexists _, _. split; [vm_compute; reflexivity | exact I].
    + exists s'. split; [exact Hmoves | exact Hnaps].
Defined.

End ControllerWitnesses.

(** ** At most one cycle *)

Section OneCycle.
Import Microlab ControllerTerms.

Variable Y_INFO_RESPONSE : string.

Local Abbreviation step := (_cycle_commands Y_INFO_RESPONSE).

Lemma cycle_commands_refused commands address s :
  _threads s <> [] ->
  cycle_commands commands address s
  = Returned tt (add_log {| rec_level := Comms.ERROR; rec_msg := CycleAlreadyRunning |} s).
Proof.
  intros Hrun. unfold cycle_commands. rewrite run_bind. simpl.
  destruct (_threads s); [congruence | reflexivity].
Qed.

Lemma cycle_commands_started commands address s :
  _threads s = [] ->
  cycle_commands commands address s
  = Returned tt (set_threads [{| args_commands := commands;
                                 args_address := address;
                                 started := true |}] s).
Proof.
  intros Hidle. unfold cycle_commands. rewrite run_bind. simpl. rewrite Hidle.
  unfold start_first_thread. run_controller. rewrite Hidle. reflexivity.
Qed.

Lemma stop_cycle_keeps_threads enable_logging s :
  _threads (state_of (stop_cycle enable_logging s)) = _threads s.
Proof.
  unfold stop_cycle. rewrite run_bind. simpl.
  destruct (_threads s) eqn:Hthreads; [exact Hthreads |].
  destruct enable_logging; run_controller; exact Hthreads.
Qed.

Lemma not_live_stays commands address pc s :
  live pc = false -> step commands address pc s = (pc, s).
Proof. destruct pc; simpl; congruence. Qed.

(** A move leaves the thread list alone, unless it is the return of the loop,
    which empties it. *)
Lemma step_threads commands address pc s pc' s' :
  step commands address pc s = (pc', s') ->
  (live pc' = true -> live pc = true)
  /\ (_threads s' = _threads s
      \/ (live pc = true /\ pc' = Done /\ _threads s' = [])).
Proof.
  intros Hstep.
  destruct (live pc) eqn:Hlive.
  2:{ rewrite (not_live_stays _ _ _ _ Hlive) in Hstep. inversion Hstep; subst.
      split; [congruence | left; reflexivity]. }
  split; [reflexivity |].
  assert (Hreset : forall q t,
             (match Comms.send_receive (address +:+ "K") (_comms s) with
              | Returned r c => (Done, after_reset r c s)
              | Raised e c => (Dead e, set_comms c s)
              end) = (q, t) ->
             _threads t = _threads s \/ (true = true /\ q = Done /\ _threads t = [])).
  { intros q t H. destruct (Comms.send_receive _ _); inversion H; subst; auto. }
  destruct pc as [| | [| command rest] | rest | rest | rest | | e]; simpl in Hstep;
    try discriminate Hlive.
  - inversion Hstep; subst. left. reflexivity.
  - destruct (_stop_requested s) eqn:Hstop.
    + rewrite _reset_cycle_run in Hstep. apply Hreset.
      destruct (Comms.send_receive _ _); exact Hstep.
    + inversion Hstep; subst. left. reflexivity.
  - inversion Hstep; subst. left. reflexivity.
  - rewrite send_command_run in Hstep. left.
    destruct (Comms.send_receive _ _); inversion Hstep; reflexivity.
  - left. rewrite on_comms_run in Hstep.
    destruct (Comms.send_receive _ _); inversion Hstep; reflexivity.
  - destruct (_stop_requested s) eqn:Hstop.
    + rewrite _reset_cycle_run in Hstep. apply Hreset.
      destruct (Comms.send_receive _ _); exact Hstep.
    + inversion Hstep; subst. left. reflexivity.
  - inversion Hstep; subst. left. reflexivity.
Qed.

Lemma one_cycle_boot c : one_cycle (boot c).
Proof.
  unfold one_cycle, boot. simpl. split; [lia |].
  split; intros; match goal with H : [] !! _ = Some _ |- _ => inversion H end.
Qed.

Lemma one_cycle_perform a sys : one_cycle sys -> one_cycle (perform Y_INFO_RESPONSE a sys).
Proof.
  intros (Hlen & Hheld & Hone).
  destruct a as [commands address | enable_logging | i]; simpl.
  - destruct (_threads (controller sys)) as [| th ths] eqn:Hthreads.
    + rewrite (cycle_commands_started commands address _ Hthreads). simpl.
      unfold newly_started. rewrite Hthreads. simpl.
      assert (Hquiet : forall k tk, tasks sys !! k = Some tk -> live (task_pc tk) = false).
      { intros k tk Hk. destruct (live (task_pc tk)) eqn:Hl; [| reflexivity].
        exfalso. apply (Hheld k tk Hk Hl). reflexivity. }
      assert (Hnew : forall k tk,
                 (tasks sys ++ [{| task_commands := commands; task_address := address;
                                   task_pc := Enter |}]) !! k = Some tk ->
                 live (task_pc tk) = true -> k = length (tasks sys)).
      { intros k tk Hk Hl. apply lookup_app_Some in Hk as [Hk | [Hge Hk]].
        - rewrite (Hquiet k tk Hk) in Hl. discriminate.
        - apply list_lookup_singleton_Some in Hk as [Hk _]. lia. }
      split; [simpl; lia |]. split.
      * intros; discriminate.
      * intros k j tk tj Hk Hj Hlk Hlj.
        rewrite (Hnew k tk Hk Hlk), (Hnew j tj Hj Hlj). reflexivity.
    + rewrite cycle_commands_refused by (rewrite Hthreads; discriminate). simpl.
      unfold newly_started. rewrite Hthreads, app_nil_r.
      split; [simpl; rewrite Hthreads; exact Hlen |]. split; [| exact Hone].
      intros k tk Hk Hl. simpl. rewrite Hthreads. discriminate.
  - unfold one_cycle. simpl. rewrite stop_cycle_keeps_threads.
    split; [exact Hlen |]. split; assumption.
  - destruct (tasks sys !! i) as [tk |] eqn:Hi; [| repeat split; assumption].
    destruct (step (task_commands tk) (task_address tk) (task_pc tk) (controller sys))
      as [pc' s'] eqn:Hstep.
    destruct (step_threads _ _ _ _ _ _ Hstep) as [Hback Hthreads].
    unfold one_cycle. simpl.
    assert (Hi_lt : i < length (tasks sys)) by (eapply lookup_lt_Some; exact Hi).
    assert (Hlook : forall k tk',
               <[i := {| task_commands := task_commands tk;
                         task_address := task_address tk;
                         task_pc := pc' |}]> (tasks sys) !! k = Some tk' ->
               live (task_pc tk') = true ->
               exists old, tasks sys !! k = Some old /\ live (task_pc old) = true
                           /\ (k <> i -> tk' = old)
                           /\ (k = i -> task_pc tk' = pc')).
    { intros k tk' Hk Hl. destruct (decide (k = i)) as [-> | Hne].
      - rewrite list_lookup_insert_eq in Hk by exact Hi_lt. inversion Hk; subst tk'.
        exists tk. simpl in Hl. repeat split; auto. congruence.
      - rewrite list_lookup_insert_ne in Hk by congruence.
        exists tk'. repeat split; auto. congruence. }
    split; [| split].
    + destruct Hthreads as [-> | (_ & _ & ->)]; [exact Hlen | simpl; lia].
    + intros k tk' Hk Hl.
      destruct (Hlook k tk' Hk Hl) as (old & Hold & Hlold & Hsame & Hpc).
      destruct Hthreads as [-> | (Hlive & -> & _)]; [exact (Hheld k old Hold Hlold) |].
      exfalso. destruct (decide (k = i)) as [-> | Hne].
      * rewrite (Hpc eq_refl) in Hl. discriminate.
      * apply Hne. exact (Hone k i old tk Hold Hi Hlold Hlive).
    + intros k j tk' tj' Hk Hj Hlk Hlj.
      destruct (Hlook k tk' Hk Hlk) as (oldk & Holdk & Hloldk & _).
      destruct (Hlook j tj' Hj Hlj) as (oldj & Holdj & Hloldj & _).
      exact (Hone k j oldk oldj Holdk Holdj Hloldk Hloldj).
Qed.

Lemma one_cycle_execute schedule sys :
  one_cycle sys -> one_cycle (execute Y_INFO_RESPONSE schedule sys).
Proof.
  revert sys. induction schedule as [| a schedule IH]; intros sys Hsys; simpl.
  - exact Hsys.
  - apply IH, one_cycle_perform, Hsys.
Qed.

(** C6.  Whatever calls and background moves have taken place since the
    controller was built, the thread list holds at most one thread and at most
    one cycle thread is alive; a call of [cycle_commands] that finds a thread in
    the list, as it does whenever a cycle thread is alive, returns after logging
    one error, with the controller otherwise as it was and no thread started. *)
Theorem second_cycle_is_refused :
  (forall c schedule,
      let sys := execute Y_INFO_RESPONSE schedule (boot c) in
      length (_threads (controller sys)) <= 1
      /\ (forall i j ti tj,
            tasks sys !! i = Some ti -> tasks sys !! j = Some tj ->
            live (task_pc ti) = true -> live (task_pc tj) = true -> i = j)
      /\ (forall i ti commands address,
            tasks sys !! i = Some ti -> live (task_pc ti) = true ->
            perform Y_INFO_RESPONSE (CallCycleCommands commands address) sys
            = {| controller := add_log {| rec_level := Comms.ERROR;
                                          rec_msg := CycleAlreadyRunning |}
                                       (controller sys);
                 tasks := tasks sys |}))
  /\ (forall commands address s,
        _threads s <> [] ->
        cycle_commands commands address s
        = Returned tt (add_log {| rec_level := Comms.ERROR;
                                  rec_msg := CycleAlreadyRunning |} s))
  /\ (forall commands address sys,
        _threads (controller sys) <> [] ->
        perform Y_INFO_RESPONSE (CallCycleCommands commands address) sys
        = {| controller := add_log {| rec_level := Comms.ERROR;
                                      rec_msg := CycleAlreadyRunning |} (controller sys);
             tasks := tasks sys |}).
Proof.
  assert (Refused : forall commands address sys,
        _threads (controller sys) <> [] ->
        perform Y_INFO_RESPONSE (CallCycleCommands commands address) sys
        = {| controller := add_log {| rec_level := Comms.ERROR;
                                      rec_msg := CycleAlreadyRunning |} (controller sys);
             tasks := tasks sys |}).
  { intros commands address sys Hrun. simpl.
    rewrite (cycle_commands_refused commands address _ Hrun). simpl.
    unfold newly_started. destruct (_threads (controller sys)); [congruence |].
    rewrite app_nil_r. reflexivity. }
  split; [| split; [apply cycle_commands_refused | exact Refused]].
  intros c schedule sys.
  destruct (one_cycle_execute schedule (boot c) (one_cycle_boot c))
    as (Hlen & Hheld & Hone).
  fold sys in Hlen, Hheld, Hone.
  split; [exact Hlen | split; [exact Hone |]].
  intros i ti commands address Hi Hlive.
  apply Refused. exact (Hheld i ti Hi Hlive).
Qed.

End OneCycle.

Section OneCycleWitness.
Import Microlab ControllerTerms.

Lemma second_cycle_is_refused_witness :
  cycle_commands [{| Command.string := "BM100" |}] "a" (cycling [])
  = Returned tt (add_log {| rec_level := Comms.ERROR; rec_msg := CycleAlreadyRunning |}
                   (cycling [])).
Proof.
  apply (proj1 (proj2 (second_cycle_is_refused "Y"))).
  simpl. intros Hnil. discriminate Hnil.
Defined.

End OneCycleWitness.

(** ** The lock of the Link *)

Section LockFacts.
Import Lock.

Lemma line_of_snoc es e : line_of (es ++ [e]) = observe (line_of es) e.
Proof. unfold line_of. rewrite fold_left_app. reflexivity. Qed.

Lemma clash_stays es : fold_left observe es Clash = Clash.
Proof. induction es as [| e es IH]; simpl; [reflexivity | exact IH]. Qed.

Lemma in_flight_inside pc : in_flight pc = true -> inside pc = true.
Proof. destruct pc; simpl; congruence. Qed.

Lemma lookup_moved (ps : list Pc) i new k pc :
  <[i := new]> ps !! k = Some pc ->
  (k = i /\ pc = new) \/ (k <> i /\ ps !! k = Some pc).
Proof.
  intros H. apply list_lookup_insert_Some in H as [(-> & -> & _) | [Hne H]]; auto.
Qed.

Lemma exclusive_start c n : exclusive (start c n).
Proof.
  unfold exclusive, start. simpl.
  assert (Hout : forall i pc, replicate n Outside !! i = Some pc -> pc = Outside).
  { intros i pc H. apply lookup_replicate in H as [-> _]. reflexivity. }
  split; [| split].
  - intros _ i pc H. rewrite (Hout i pc H). reflexivity.
  - intros i j pci pcj Hi _ Hin. rewrite (Hout i pci Hi) in Hin. discriminate.
  - intros i pc H. rewrite (Hout i pc H). reflexivity.
Qed.

(** The open exchange, if any, belongs to a thread that is inside. *)
Lemma open_line_owner g i pc :
  exclusive g -> pcs g !! i = Some pc -> inside pc = true ->
  match line_of (events g) with
  | Idle => in_flight pc = false
  | Open k => k = i
  | Clash => False
  end.
Proof.
  intros (_ & Hone & Hline) Hi Hin.
  destruct (line_of (events g)) as [| k |].
  - exact (Hline i pc Hi).
  - destruct Hline as [request Hk]. exact (Hone k i _ _ Hk Hi eq_refl Hin).
  - exact Hline.
Qed.

Lemma exclusive_move m g : exclusive g -> exclusive (move m g).
Proof.
  intros Hg. pose proof Hg as (Hfree & Hone & Hline).
  unfold move.
  destruct m as [i request | i | i | i | i]; simpl thread_of;
    destruct (pcs g !! i) as [[| r | r | r |] |] eqn:Hi; try exact Hg.
  - (* Call *)
    unfold exclusive; simpl. split; [| split].
    + intros Hl k pc Hk. apply lookup_moved in Hk as [[_ ->] | [_ Hk]];
        [reflexivity | exact (Hfree Hl k pc Hk)].
    + intros k j pk pj Hk Hj Hink Hinj.
      apply lookup_moved in Hk as [[_ ->] | [_ Hk]]; [discriminate |].
      apply lookup_moved in Hj as [[_ ->] | [_ Hj]]; [discriminate |].
      exact (Hone k j pk pj Hk Hj Hink Hinj).
    + destruct (line_of (events g)) as [| k |]; [| | exact Hline].
      * intros k pc Hk. apply lookup_moved in Hk as [[_ ->] | [_ Hk]];
          [reflexivity | exact (Hline k pc Hk)].
      * destruct Hline as [request' Hk]. exists request'.
        rewrite list_lookup_insert_ne; [exact Hk | congruence].
  - (* Acquire *)
    destruct (locked g) eqn:Hl; [exact Hg |].
    unfold exclusive; simpl. split; [discriminate | split].
    + intros k j pk pj Hk Hj Hink Hinj.
      apply lookup_moved in Hk as [[-> _] | [_ Hk]];
        [| rewrite (Hfree eq_refl k pk Hk) in Hink; discriminate].
      apply lookup_moved in Hj as [[-> _] | [_ Hj]];
        [reflexivity | rewrite (Hfree eq_refl j pj Hj) in Hinj; discriminate].
    + destruct (line_of (events g)) as [| k |]; [| | exact Hline].
      * intros k pc Hk. apply lookup_moved in Hk as [[_ ->] | [_ Hk]];
          [reflexivity | exact (Hline k pc Hk)].
      * destruct Hline as [request' Hk].
        pose proof (Hfree eq_refl k _ Hk) as Hin. discriminate Hin.
  - (* Send *)
    pose proof (open_line_owner g i (Holding r) Hg Hi eq_refl) as Hown.
    assert (Hidle : line_of (events g) = Idle).
    { destruct (line_of (events g)) as [| k |]; [reflexivity | | contradiction].
      subst k. destruct Hline as [request' Hk]. congruence. }
    assert (Hlocked : locked g = true).
    { destruct (locked g) eqn:Hl; [reflexivity |].
      pose proof (Hfree eq_refl i _ Hi) as Hin. discriminate Hin. }
    assert (Hi_lt : i < length (pcs g)) by (eapply lookup_lt_Some; exact Hi).
    destruct (Comms._send r (link g)) as [[] c | e c];
      unfold exclusive; simpl; rewrite Hlocked; (split; [discriminate | split]).
    + intros k j pk pj Hk Hj Hink Hinj.
      assert (Hk' : exists old, pcs g !! k = Some old /\ inside old = true).
      { apply lookup_moved in Hk as [[-> _] | [_ Hk]]; eauto. }
      assert (Hj' : exists old, pcs g !! j = Some old /\ inside old = true).
      { apply lookup_moved in Hj as [[-> _] | [_ Hj]]; eauto. }
      destruct Hk' as (ok & Hok & Hiok), Hj' as (oj & Hoj & Hioj).
      exact (Hone k j ok oj Hok Hoj Hiok Hioj).
    + rewrite line_of_snoc, Hidle. simpl. exists r.
      apply list_lookup_insert_eq. exact Hi_lt.
    + intros k j pk pj Hk Hj Hink Hinj.
      assert (Hk' : exists old, pcs g !! k = Some old /\ inside old = true).
      { apply lookup_moved in Hk as [[-> _] | [_ Hk]]; eauto. }
      assert (Hj' : exists old, pcs g !! j = Some old /\ inside old = true).
      { apply lookup_moved in Hj as [[-> _] | [_ Hj]]; eauto. }
      destruct Hk' as (ok & Hok & Hiok), Hj' as (oj & Hoj & Hioj).
      exact (Hone k j ok oj Hok Hoj Hiok Hioj).
    + rewrite Hidle. rewrite Hidle in Hline.
      intros k pc Hk. apply lookup_moved in Hk as [[_ ->] | [_ Hk]];
        [reflexivity | exact (Hline k pc Hk)].
  - (* Receive *)
    pose proof (open_line_owner g i (Sent r) Hg Hi eq_refl) as Hown.
    assert (Hopen : line_of (events g) = Open i).
    { destruct (line_of (events g)) as [| k |]; [discriminate | | contradiction].
      subst k. reflexivity. }
    assert (Hlocked : locked g = true).
    { destruct (locked g) eqn:Hl; [reflexivity |].
      pose proof (Hfree eq_refl i _ Hi) as Hin. discriminate Hin. }
    assert (Hafter : forall k pc,
               <[i := Leaving]> (pcs g) !! k = Some pc -> in_flight pc = false).
    { intros k pc Hk. apply lookup_moved in Hk as [[_ ->] | [Hne Hk]]; [reflexivity |].
      destruct (in_flight pc) eqn:Hfl; [| reflexivity]. exfalso. apply Hne.
      exact (Hone k i pc _ Hk Hi (in_flight_inside pc Hfl) eq_refl). }
    assert (Hsame : forall k j pk pj,
               <[i := Leaving]> (pcs g) !! k = Some pk ->
               <[i := Leaving]> (pcs g) !! j = Some pj ->
               inside pk = true -> inside pj = true -> k = j).
    { intros k j pk pj Hk Hj Hink Hinj.
      assert (Hk' : exists old, pcs g !! k = Some old /\ inside old = true).
      { apply lookup_moved in Hk as [[-> _] | [_ Hk]]; eauto. }
      assert (Hj' : exists old, pcs g !! j = Some old /\ inside old = true).
      { apply lookup_moved in Hj as [[-> _] | [_ Hj]]; eauto. }
      destruct Hk' as (ok & Hok & Hiok), Hj' as (oj & Hoj & Hioj).
      exact (Hone k j ok oj Hok Hoj Hiok Hioj). }
    destruct (Comms.socket_recv (link g)) as [response c | e c];
      unfold exclusive; simpl; rewrite Hlocked, line_of_snoc, Hopen; simpl;
      rewrite Nat.eqb_refl; (split; [discriminate | split; [exact Hsame | exact Hafter]]).
  - (* Release *)
    pose proof (open_line_owner g i Leaving Hg Hi eq_refl) as Hown.
    assert (Hidle : line_of (events g) = Idle).
    { destruct (line_of (events g)) as [| k |]; [reflexivity | | contradiction].
      subst k. destruct Hline as [request' Hk]. congruence. }
    assert (Hout : forall k pc,
               <[i := Outside]> (pcs g) !! k = Some pc -> inside pc = false).
    { intros k pc Hk. apply lookup_moved in Hk as [[_ ->] | [Hne Hk]]; [reflexivity |].
      destruct (inside pc) eqn:Hin; [| reflexivity]. exfalso. apply Hne.
      exact (Hone k i pc _ Hk Hi Hin eq_refl). }
    unfold exclusive; simpl. rewrite Hidle. split; [| split].
    + intros _. exact Hout.
    + intros k j pk pj Hk Hj Hink. rewrite (Hout k pk Hk) in Hink. discriminate.
    + intros k pc Hk. destruct (in_flight pc) eqn:Hfl; [| reflexivity].
      apply in_flight_inside in Hfl.
      rewrite (Hout k pc Hk) in Hfl. discriminate.
Qed.

Lemma exclusive_run schedule g : exclusive g -> exclusive (run schedule g).
Proof.
  revert g. induction schedule as [| m schedule IH]; intros g Hg; simpl.
  - exact Hg.
  - apply IH, exclusive_move, Hg.
Qed.

End LockFacts.

Section LockClaims.
Import Lock.

(** C5.  However the moves of any number of callers are interleaved, at most
    one of them is inside the lock, hence at most one between its send and its
    receive; every event on the connection is made by a thread holding the
    lock; and the events on the connection, at every instant, are whole
    exchanges, a send followed by the receive of the same thread, one after
    another, the last of them possibly still open. *)
Theorem one_exchange_in_flight c n schedule :
  let g := run schedule (start c n) in
  (forall i j pci pcj,
      pcs g !! i = Some pci -> pcs g !! j = Some pcj ->
      inside pci = true -> inside pcj = true -> i = j)
  /\ (forall i j pci pcj,
        pcs g !! i = Some pci -> pcs g !! j = Some pcj ->
        in_flight pci = true -> in_flight pcj = true -> i = j)
  /\ (forall m,
        events (move m g) <> events g ->
        locked g = true
        /\ exists pc, pcs g !! thread_of m = Some pc /\ inside pc = true)
  /\ (forall before later,
        events g = before ++ later -> line_of before <> Clash)
  /\ (forall i,
        line_of (events g) = Open i ->
        exists request, pcs g !! i = Some (Sent request)).
Proof.
  intros g.
  pose proof (exclusive_run schedule (start c n) (exclusive_start c n)) as Hg.
  fold g in Hg. pose proof Hg as (Hfree & Hone & Hline).
  split; [exact Hone | split; [| split; [| split]]].
  - intros i j pci pcj Hi Hj Hfi Hfj.
    exact (Hone i j pci pcj Hi Hj (in_flight_inside _ Hfi) (in_flight_inside _ Hfj)).
  - intros m Hev.
    assert (Hin : exists pc, pcs g !! thread_of m = Some pc /\ inside pc = true).
    { unfold move in Hev.
      destruct m as [i request | i | i | i | i]; simpl thread_of in *;
        destruct (pcs g !! i) as [[| r | r | r |] |] eqn:Hi;
        try (exfalso; apply Hev; reflexivity); try (eexists; split; reflexivity).
      exfalso. apply Hev. destruct (locked g); reflexivity. }
    split; [| exact Hin].
    destruct Hin as (pc & Hpc & Hinside).
    destruct (locked g) eqn:Hl; [reflexivity |].
    rewrite (Hfree eq_refl _ pc Hpc) in Hinside. discriminate.
  - intros before later Hev Hclash.
    assert (Hall : line_of (events g) = Clash).
    { rewrite Hev. unfold line_of in *. rewrite fold_left_app, Hclash.
      apply clash_stays. }
    rewrite Hall in Hline. exact Hline.
  - intros i Hopen. rewrite Hopen in Hline. exact Hline.
Qed.

Lemma one_exchange_in_flight_witness :
  exists request,
    pcs (run two_callers (start (Comms.connected
                                   [Comms.Data LinkTerms.reply_ack;
                                    Comms.Data LinkTerms.reply_nack]) 2)) !! 1
    = Some (Sent request).
Proof.
  apply (one_exchange_in_flight
           (Comms.connected [Comms.Data LinkTerms.reply_ack;
                             Comms.Data LinkTerms.reply_nack]) 2 two_callers).
  vm_compute. reflexivity.
Defined.

End LockClaims.

(** ** Syringe sub-commands *)

Section SyringeMoveClaims.
Import SyringeMove.

Variables MIN_SYRINGE_MOVE MAX_SYRINGE_MOVE : Z.
Variables MIN_SPEED MAX_SPEED : Z.
Variables MIN_RETURN_STEPS MAX_RETURN_STEPS : Z.
Variable Side_value : Side -> String.string.
Variable FIRST_ADDRESS : String.string.

Local Abbreviation validate' :=
  (validate MIN_SYRINGE_MOVE MAX_SYRINGE_MOVE MIN_SPEED MAX_SPEED
            MIN_RETURN_STEPS MAX_RETURN_STEPS).
Local Abbreviation new' :=
  (new MIN_SYRINGE_MOVE MAX_SYRINGE_MOVE MIN_SPEED MAX_SPEED
       MIN_RETURN_STEPS MAX_RETURN_STEPS).
Local Abbreviation build_and_send' :=
  (build_and_send MIN_SYRINGE_MOVE MAX_SYRINGE_MOVE MIN_SPEED MAX_SPEED
                  MIN_RETURN_STEPS MAX_RETURN_STEPS Side_value FIRST_ADDRESS).

Lemma validate_rejects k sd v sp rs :
  within MIN_SYRINGE_MOVE MAX_SYRINGE_MOVE v = false
  \/ (exists z, sp = Integer z /\ within MIN_SPEED MAX_SPEED z = false)
  \/ (exists z, rs = Integer z /\ within MIN_RETURN_STEPS MAX_RETURN_STEPS z = false) ->
  snd (validate' k sd v sp rs) = None.
Proof.
  intros Hout. unfold validate.
  destruct (within MIN_SYRINGE_MOVE MAX_SYRINGE_MOVE v) eqn:Hv; simpl; [| reflexivity].
  destruct Hout as [Hv' | [(z & -> & Hz) | (z & -> & Hz)]]; [discriminate | |].
  - simpl. rewrite Hz. reflexivity.
  - destruct sp as [| y |]; simpl; try (rewrite Hz; reflexivity).
    destruct (within MIN_SPEED MAX_SPEED y); simpl; [rewrite Hz |]; reflexivity.
Qed.

(** C9.  When the value, an integer speed or an integer return-steps argument
    lies outside its range, the constructor of a syringe sub-command raises
    [ValueError], and a caller that builds the sub-command in order to send it
    raises there, with the controller and its link exactly as they were: no
    frame sent, no receive consumed. *)
Theorem out_of_range_argument_raises_before_any_transaction
        k sd v sp rs (s : Microlab.t) :
  within MIN_SYRINGE_MOVE MAX_SYRINGE_MOVE v = false
  \/ (exists z, sp = Integer z /\ within MIN_SPEED MAX_SPEED z = false)
  \/ (exists z, rs = Integer z /\ within MIN_RETURN_STEPS MAX_RETURN_STEPS z = false) ->
  snd (validate' k sd v sp rs) = None
  /\ new' k sd v sp rs s = Raised ValueError s
  /\ build_and_send' k sd v sp rs s = Raised ValueError s
  /\ Comms.wire (Microlab._comms (state_of (build_and_send' k sd v sp rs s)))
     = Comms.wire (Microlab._comms s)
  /\ Comms.incoming (Microlab._comms (state_of (build_and_send' k sd v sp rs s)))
     = Comms.incoming (Microlab._comms s).
Proof.
  intros Hout. pose proof (validate_rejects k sd v sp rs Hout) as Hrej.
  assert (Hnew : new' k sd v sp rs s = Raised ValueError s).
  { unfold new. rewrite Hrej. reflexivity. }
  assert (Hsend : build_and_send' k sd v sp rs s = Raised ValueError s).
  { unfold build_and_send. rewrite run_bind, Hnew. reflexivity. }
  split; [exact Hrej | split; [exact Hnew | split; [exact Hsend |]]].
  rewrite Hsend. split; reflexivity.
Qed.

End SyringeMoveClaims.

Section SyringeMoveWitness.
Import SyringeMove.

Lemma out_of_range_argument_raises_witness :
  _syringe_pickup 0 48000 1 3692 0 1000
    (fun sd => match sd with LEFT => "B" | RIGHT => "C" end) "a" RIGHT (-20)
    (Microlab.init (Comms.connected []))
  = Raised ValueError (Microlab.init (Comms.connected [])).
Proof.
  apply (out_of_range_argument_raises_before_any_transaction
           0 48000 1 3692 0 1000
           (fun sd => match sd with LEFT => "B" | RIGHT => "C" end) "a"
           SyringePickup RIGHT (-20) Omitted Omitted
           (Microlab.init (Comms.connected []))).
  left. reflexivity.
Defined.

End SyringeMoveWitness.

(** * Properties of the further code *)

(** ** Strings *)

Section TextFacts.
Import Text.

Lemma append_String a s t : String a s +:+ t = String a (s +:+ t).
Proof. reflexivity. Qed.

Lemma append_empty_l t : EmptyString +:+ t = t.
Proof. reflexivity. Qed.

Ltac push_append := rewrite ?append_String, ?append_empty_l.

Lemma append_assoc s t u : (s +:+ t) +:+ u = s +:+ (t +:+ u).
Proof.
  induction s as [| a s IH]; push_append; [reflexivity | rewrite IH; reflexivity].
Qed.

Lemma append_empty_r s : s +:+ EmptyString = s.
Proof.
  induction s as [| a s IH]; push_append; [reflexivity | rewrite IH; reflexivity].
Qed.

Lemma split_not_nil c s : Py.split c s <> [].
Proof.
  destruct s as [| a s]; simpl; [discriminate |].
  destruct (Ascii.eqb a c); [discriminate |].
  destruct (Py.split c s); discriminate.
Qed.

Lemma split_without c s : has c s = false -> Py.split c s = [s].
Proof.
  induction s as [| a s IH]; simpl; [reflexivity |].
  intros H. apply orb_false_iff in H as [Ha Hs].
  rewrite Ha, (IH Hs). reflexivity.
Qed.

Lemma split_at c s1 s2 :
  Py.split c (s1 +:+ String c s2) = Py.split c s1 ++ Py.split c s2.
Proof.
  induction s1 as [| a s1 IH]; push_append; simpl.
  - rewrite Ascii.eqb_refl. reflexivity.
  - destruct (Ascii.eqb a c); rewrite IH; [reflexivity |].
    destruct (Py.split c s1) as [| h r] eqn:Hs; [| reflexivity].
    exfalso. exact (split_not_nil c s1 Hs).
Qed.

Lemma has_append c s t : has c (s +:+ t) = has c s || has c t.
Proof.
  induction s as [| a s IH]; push_append; simpl; [reflexivity |].
  rewrite IH, orb_assoc. reflexivity.
Qed.

(** A string holds no [c], or splits at its last [c]. *)
Lemma last_occurrence c s :
  has c s = false
  \/ exists body tail, s = body +:+ String c tail /\ has c tail = false.
Proof.
  induction s as [| a s IH]; [left; reflexivity |].
  destruct IH as [Hnone | (body & tail & -> & Htail)].
  - destruct (Ascii.eqb_spec a c) as [-> | Hne].
    + right. exists EmptyString, s. split; [reflexivity | exact Hnone].
    + left. simpl. rewrite Hnone. apply Ascii.eqb_neq in Hne. rewrite Hne. reflexivity.
  - right. exists (String a body), tail. split; [reflexivity | exact Htail].
Qed.

(** A string is empty or ends with a character. *)
Lemma last_character s :
  s = EmptyString \/ exists front a, s = front +:+ String a EmptyString.
Proof.
  induction s as [| x s IH]; [left; reflexivity |]. right.
  destruct IH as [-> | (front & a & ->)].
  - exists EmptyString, x. reflexivity.
  - exists (String x front), a. reflexivity.
Qed.

Lemma split_ends_with c front a :
  a <> c ->
  exists m, last (Py.split c (front +:+ String a EmptyString))
            = Some (m +:+ String a EmptyString).
Proof.
  intros Hne. apply Ascii.eqb_neq in Hne.
  induction front as [| x front (m & IH)]; push_append; simpl.
  - rewrite Hne. exists EmptyString. reflexivity.
  - destruct (Ascii.eqb x c).
    + exists m. rewrite <- IH.
      destruct (Py.split c (front +:+ String a EmptyString)) as [| h r] eqn:Hs;
        [exfalso; exact (split_not_nil _ _ Hs) | reflexivity].
    + destruct (Py.split c (front +:+ String a EmptyString)) as [| h r] eqn:Hs;
        [exfalso; exact (split_not_nil _ _ Hs) |].
      destruct r as [| h' r'].
      * simpl in IH. inversion IH; subst h. exists (String x m). reflexivity.
      * exists m. exact IH.
Qed.

Lemma split_head c s :
  exists piece, head (Py.split c s) = Some piece
                /\ has c piece = false
                /\ (s = piece \/ exists more, s = piece +:+ String c more).
Proof.
  induction s as [| a s (piece & Hhead & Hfree & Hshape)]; simpl.
  - exists EmptyString. repeat split. left. reflexivity.
  - destruct (Ascii.eqb_spec a c) as [-> | Hne].
    + exists EmptyString. repeat split. right. exists s. reflexivity.
    + destruct (Py.split c s) as [| h r]; [discriminate Hhead |].
      simpl in Hhead. inversion Hhead; subst h.
      exists (String a piece). split; [reflexivity | split].
      * simpl. rewrite Hfree. apply Ascii.eqb_neq in Hne. rewrite Hne. reflexivity.
      * destruct Hshape as [-> | (more & ->)]; [left; reflexivity |].
        right. exists more. reflexivity.
Qed.

Lemma join_split c s : join c (Py.split c s) = s.
Proof.
  induction s as [| a s IH]; simpl; [reflexivity |].
  destruct (Ascii.eqb_spec a c) as [-> | Hne].
  - destruct (Py.split c s) as [| h r] eqn:Hs;
      [exfalso; exact (split_not_nil _ _ Hs) |].
    change (join c (EmptyString :: h :: r)) with (String c (join c (h :: r))).
    rewrite IH. reflexivity.
  - destruct (Py.split c s) as [| h r] eqn:Hs;
      [exfalso; exact (split_not_nil _ _ Hs) |].
    destruct r as [| h' r'].
    + simpl in *. rewrite IH. reflexivity.
    + change (join c (String a h :: h' :: r'))
        with (String a (h +:+ String c (join c (h' :: r')))).
      change (join c (h :: h' :: r')) with (h +:+ String c (join c (h' :: r'))) in IH.
      rewrite IH. reflexivity.
Qed.

Lemma split_length c s : length (Py.split c s) = S (count c s).
Proof.
  induction s as [| a s IH]; simpl; [reflexivity |].
  destruct (Ascii.eqb a c); simpl; [rewrite IH; reflexivity |].
  destruct (Py.split c s) as [| h r] eqn:Hs;
    [exfalso; exact (split_not_nil _ _ Hs) |].
  simpl in *. exact IH.
Qed.

End TextFacts.

(** ** The Link: replies *)

Section ReplyFacts.
Import Comms LinkTerms Reading Text.

Lemma messages_of_without d : has CR d = false -> messages_of d = [].
Proof. intros H. unfold messages_of. rewrite (split_without _ _ H). reflexivity. Qed.

Lemma messages_of_at body tail :
  has CR tail = false ->
  messages_of (body +:+ String CR tail) = Py.split CR body.
Proof.
  intros H. unfold messages_of, Py.drop_last.
  rewrite split_at, (split_without _ _ H). apply removelast_last.
Qed.

Lemma nonempty_snoc m a : exists x t, m +:+ String a EmptyString = String x t.
Proof. destruct m as [| x m]; [exists a, EmptyString | exists x, (m +:+ String a EmptyString)]; reflexivity. Qed.

Lemma closes_gives_last_message d :
  closes_a_message d ->
  exists earlier a t, messages_of d = earlier ++ [String a t].
Proof.
  intros (body & a & tail & -> & Ha & Htail).
  replace (body +:+ String a (String CR tail))
    with ((body +:+ String a EmptyString) +:+ String CR tail)
    by (rewrite append_assoc; reflexivity).
  rewrite (messages_of_at _ _ Htail).
  destruct (split_ends_with CR body a Ha) as (m & Hlast).
  apply last_Some in Hlast as (earlier & Hsplit).
  destruct (nonempty_snoc m a) as (x & t & Hm).
  exists earlier, x, t. rewrite Hsplit, Hm. reflexivity.
Qed.

(** A reply closes a message, or leaves [send_receive] without a last message
    or with an empty one. *)
Lemma reply_cases d :
  closes_a_message d
  \/ last (messages_of d) = None
  \/ last (messages_of d) = Some EmptyString.
Proof.
  destruct (last_occurrence CR d) as [Hnone | (body & tail & -> & Htail)].
  - right. left. rewrite (messages_of_without _ Hnone). reflexivity.
  - rewrite (messages_of_at _ _ Htail).
    destruct (last_character body) as [-> | (front & a & ->)].
    + right. right. reflexivity.
    + destruct (Ascii.eqb_spec a CR) as [-> | Ha].
      * right. right. rewrite split_at. simpl. apply last_snoc.
      * left. exists front, a, tail. split; [| split; assumption].
        rewrite append_assoc. reflexivity.
Qed.

Lemma classify_raises d c :
  last (messages_of d) = None \/ last (messages_of d) = Some EmptyString ->
  exists c', classify d c = Raised IndexError c'.
Proof.
  unfold messages_of. intros Hlast. unfold classify. rewrite run_bind.
  destruct ((if (1 <? length (Py.drop_last (Py.split CR d)))%nat
             then log_call WARNING (MultipleMessages (_format_message d))
             else ret tt) c) as [[] c1 | e c1] eqn:Hwarn.
  - rewrite run_bind. unfold Py.item_last.
    destruct Hlast as [-> | ->]; simpl; eauto.
  - destruct (1 <? length (Py.drop_last (Py.split CR d)))%nat; discriminate Hwarn.
Qed.

Section OneReply.
Variables (request : string) (bs reply : list byte) (rest : list Recv) (c : t).
Hypothesis Henc : Py.encode (request +:+ String CR EmptyString) = Some bs.
Hypothesis Hin : incoming c = Data reply :: rest.
Hypothesis Hlen : length reply <= RECV_BUFFER.

Lemma send_receive_empty_reply :
  Py.decode reply = Some EmptyString ->
  exists c', send_receive request c = Raised IndexError c'.
Proof.
  intros Hdec. unfold send_receive, _send_receive.
  rewrite run_bind, (exchange_prefix request bs reply rest c Henc Hin Hlen), Hdec.
  run. eauto.
Qed.

Lemma send_receive_closed d :
  Py.decode reply = Some d ->
  Py.index0 d <> Some NACK ->
  closes_a_message d ->
  exists earlier a t,
    messages_of d = earlier ++ [String a t]
    /\ send_receive request c
       = Returned (verdict a t)
           (after_exchange request bs rest
              (emit DEBUG (ReceivedResponse (_format_message d)) c
               ++ warned d earlier c) c).
Proof.
  intros Hdec Hnack Hcloses.
  destruct (closes_gives_last_message d Hcloses) as (earlier & a & t & Hmsgs).
  exists earlier, a, t. split; [exact Hmsgs |].
  destruct d as [| x y].
  - destruct Hcloses as (body & a' & tail & Heq & _).
    destruct body; discriminate Heq.
  - apply (send_receive_last_message request bs reply rest c Henc Hin Hlen
             (String x y) x y earlier a t Hdec eq_refl).
    + intros ->. apply Hnack. reflexivity.
    + exact Hmsgs.
Qed.

Lemma send_receive_unclosed d :
  Py.decode reply = Some d ->
  Py.index0 d <> Some NACK ->
  last (messages_of d) = None \/ last (messages_of d) = Some EmptyString ->
  exists c', send_receive request c = Raised IndexError c'.
Proof.
  intros Hdec Hnack Hlast. destruct d as [| x y].
  - apply send_receive_empty_reply. exact Hdec.
  - unfold send_receive. rewrite run_bind.
    rewrite (_send_receive_passes request bs reply rest c Henc Hin Hlen
               (String x y) x y Hdec eq_refl);
      [| intros ->; apply Hnack; reflexivity].
    apply classify_raises. exact Hlast.
Qed.

End OneReply.

(** X1.  A decoded reply that does not begin with NACK gets a result from
    [send_receive] exactly when it closes a message, its last CR coming right
    after a character that is not a CR; any other such reply, the empty one
    included, makes [send_receive] raise [IndexError]. *)
Theorem send_receive_returns_iff_reply_closes_a_message
        request bs reply rest c d :
  Py.encode (request +:+ String CR EmptyString) = Some bs ->
  incoming c = Data reply :: rest ->
  length reply <= RECV_BUFFER ->
  Py.decode reply = Some d ->
  Py.index0 d <> Some NACK ->
  ((exists r c', send_receive request c = Returned r c') <-> closes_a_message d)
  /\ ((exists r c', send_receive request c = Returned r c')
      \/ (exists c', send_receive request c = Raised IndexError c')).
Proof.
  intros Henc Hin Hlen Hdec Hnack.
  destruct (reply_cases d) as [Hcloses | Hlast].
  - destruct (send_receive_closed request bs reply rest c Henc Hin Hlen d Hdec
                Hnack Hcloses) as (earlier & a & t & _ & Hres).
    split; [split; [intros _; exact Hcloses | intros _; eauto] | left; eauto].
  - destruct (send_receive_unclosed request bs reply rest c Henc Hin Hlen d Hdec
                Hnack Hlast) as (c' & Hraise).
    split; [split |].
    + intros (r & c'' & Hret). rewrite Hraise in Hret. discriminate Hret.
    + intros Hcloses.
      destruct (send_receive_closed request bs reply rest c Henc Hin Hlen d Hdec
                  Hnack Hcloses) as (earlier & a & t & _ & Hres).
      eauto.
    + right. eauto.
Qed.

Lemma send_receive_returns_iff_witness :
  (exists r c', send_receive "aF" (connected [Data reply_ack_at]) = Returned r c')
  <-> closes_a_message (String ACK (String "@" (String CR EmptyString))).
Proof.
  apply (send_receive_returns_iff_reply_closes_a_message
           "aF" [x61; x46; x0d] reply_ack_at [] (connected [Data reply_ack_at]));
    try reflexivity.
  - unfold reply_ack_at, RECV_BUFFER. simpl. lia.
  - simpl. intros H. discriminate H.
Defined.

End ReplyFacts.

(** ** The Link: what a transaction does to the socket and to the log *)

Section ExchangeFacts.
Import Comms LinkTerms Reading Text.

Lemma state_of_bind {S A B} (m : M S A) (k : A -> M S B) s :
  state_of ((m ≫= k) s)
  = match m s with
    | Returned a s' => state_of (k a s')
    | Raised _ s' => s'
    end.
Proof. rewrite run_bind. destruct (m s); reflexivity. Qed.

Lemma only_logs_ret {A} (a : A) : only_logs (ret a).
Proof. intros c. repeat split. Qed.

Lemma only_logs_mret {A} (a : A) : only_logs (mret a : M t A).
Proof. intros c. repeat split. Qed.

Lemma only_logs_or_raise {A} (o : option A) e : only_logs (or_raise o e).
Proof. intros c. destruct o; repeat split. Qed.

Lemma only_logs_log_call l m : only_logs (log_call l m).
Proof. intros c. repeat split. Qed.

Lemma only_logs_bind {A B} (m : M t A) (k : A -> M t B) :
  only_logs m -> (forall a, only_logs (k a)) -> only_logs (m ≫= k).
Proof.
  intros Hm Hk c. rewrite state_of_bind. specialize (Hm c).
  destruct (m c) as [a c1 | e c1]; simpl in Hm; [| exact Hm].
  destruct (Hk a c1) as (Hw & Hi & Hl). destruct Hm as (Hw' & Hi' & Hl').
  repeat split; congruence.
Qed.

Ltac only_logs_step :=
  first [ apply only_logs_bind; [| intros ? ]
        | apply only_logs_log_call
        | apply only_logs_or_raise
        | apply only_logs_ret
        | apply only_logs_mret ].

Lemma only_logs_classify d : only_logs (classify d).
Proof.
  unfold classify. repeat only_logs_step.
  - destruct (1 <? length (Py.drop_last (Py.split CR d)))%nat; only_logs_step.
  - destruct (Ascii.eqb _ ACK); only_logs_step.
Qed.

(** What [send_receive] does with a response once it has been received. *)
Lemma only_logs_after_receive response :
  only_logs
    (match Py.decode response with
     | Some decoded_response =>
         or_raise (Py.index0 decoded_response) IndexError
           ≫= λ c0 : ascii,
             if Ascii.eqb c0 NACK
             then log_call ERROR ReceivedNACK ≫= λ _ : (), ret None
             else log_call DEBUG (ReceivedResponse (_format_message decoded_response))
                    ≫= λ _ : (), ret (Some decoded_response)
     | None => log_call ERROR (FailedToParse response) ≫= λ _ : (), ret None
     end
       ≫= λ decoded_response : option string,
         match decoded_response with
         | Some decoded_response => classify decoded_response
         | None => ret (false, None)
         end).
Proof.
  apply only_logs_bind.
  - destruct (Py.decode response); repeat only_logs_step.
    destruct (Ascii.eqb _ NACK); repeat only_logs_step.
  - intros [d |]; [apply only_logs_classify | only_logs_step].
Qed.

Lemma send_receive_unfolded request c :
  send_receive request c
  = match _send request c with
    | Returned _ c1 =>
        match socket_recv c1 with
        | Returned response c2 =>
            (match Py.decode response with
             | Some decoded_response =>
                 or_raise (Py.index0 decoded_response) IndexError
                   ≫= λ c0 : ascii,
                     if Ascii.eqb c0 NACK
                     then log_call ERROR ReceivedNACK ≫= λ _ : (), ret None
                     else log_call DEBUG
                            (ReceivedResponse (_format_message decoded_response))
                            ≫= λ _ : (), ret (Some decoded_response)
             | None => log_call ERROR (FailedToParse response) ≫= λ _ : (), ret None
             end
               ≫= λ decoded_response : option string,
                 match decoded_response with
                 | Some decoded_response => classify decoded_response
                 | None => ret (false, None)
                 end) c2
        | Raised e c2 => Raised e c2
        end
    | Raised e c1 => Raised e c1
    end.
Proof.
  unfold send_receive, _send_receive. rewrite !run_bind.
  destruct (_send request c) as [[] c1 | e c1]; [| reflexivity].
  rewrite !run_bind. destruct (socket_recv c1) as [response c2 | e c2]; reflexivity.
Qed.

(** X2.  A transaction is one send and one receive, whatever comes of it: with
    an encodable request, and a receive that meets silence or a reply that fits
    the buffer, [send_receive] leaves exactly one more frame on the wire, has
    taken exactly one outcome off the socket and has not changed the level of
    the logger, whether it returns or raises. *)
Theorem transaction_is_one_send_one_receive request bs c outcome rest :
  Py.encode (request +:+ String CR EmptyString) = Some bs ->
  incoming c = outcome :: rest ->
  (outcome = Silence \/ exists reply, outcome = Data reply /\ length reply <= RECV_BUFFER) ->
  wire (state_of (send_receive request c)) = wire c ++ [bs]
  /\ incoming (state_of (send_receive request c)) = rest
  /\ level (state_of (send_receive request c)) = level c.
Proof.
  intros Henc Hin Hout.
  rewrite send_receive_unfolded, (_send_returns _ _ _ Henc).
  destruct Hout as [-> | (reply & -> & Hlen)].
  - unfold socket_recv. simpl. rewrite Hin. repeat split.
  - rewrite (socket_recv_data reply rest (after_send request bs c) Hin Hlen).
    destruct (only_logs_after_receive reply (set_incoming rest (after_send request bs c)))
      as (Hw & Hi & Hl).
    repeat split; assumption.
Qed.

Lemma transaction_is_one_send_one_receive_witness :
  wire (state_of (send_receive "aK" (connected [Data reply_cut_short; Silence])))
  = [] ++ [[x61; x4b; x0d]]
  /\ incoming (state_of (send_receive "aK" (connected [Data reply_cut_short; Silence])))
     = [Silence]
  /\ level (state_of (send_receive "aK" (connected [Data reply_cut_short; Silence])))
     = DEBUG.
Proof.
  apply (transaction_is_one_send_one_receive
           "aK" [x61; x4b; x0d] (connected [Data reply_cut_short; Silence])
           (Data reply_cut_short) [Silence]); try reflexivity.
  right. exists reply_cut_short. split; [reflexivity |].
  unfold reply_cut_short, RECV_BUFFER. simpl. lia.
Defined.

End ExchangeFacts.

Section MoreExchangeFacts.
Import Comms LinkTerms Reading Text.

Lemma list_ascii_of_append s t :
  list_ascii_of_string (s +:+ t) = list_ascii_of_string s ++ list_ascii_of_string t.
Proof.
  induction s as [| a s IH]; [reflexivity |].
  rewrite append_String. simpl. rewrite IH. reflexivity.
Qed.

Lemma encode_not_ascii request suffix :
  not_ascii request -> Py.encode (request +:+ suffix) = None.
Proof.
  unfold not_ascii, Py.encode. intros H.
  rewrite list_ascii_of_append, forallb_app, H. reflexivity.
Qed.

(** X3.  A request holding a character outside ASCII is refused before
    anything is sent: [send_receive] raises [UnicodeEncodeError] with the wire
    and what is to arrive untouched, having logged at most the "sending
    request" line. *)
Theorem non_ascii_request_is_never_sent request c :
  not_ascii request ->
  send_receive request c
  = Raised UnicodeEncodeError
      (set_log (fun rs => rs ++ emit DEBUG
                                   (SendingRequest
                                      (_format_message
                                         (request +:+ String CR EmptyString))) c) c)
  /\ wire (state_of (send_receive request c)) = wire c
  /\ incoming (state_of (send_receive request c)) = incoming c.
Proof.
  intros Hbad.
  assert (Hrun : send_receive request c
                 = Raised UnicodeEncodeError
                     (set_log (fun rs => rs ++ emit DEBUG
                                                  (SendingRequest
                                                     (_format_message
                                                        (request +:+ String CR EmptyString)))
                                                  c) c)).
  { rewrite send_receive_unfolded. unfold _send. rewrite run_bind. simpl.
    rewrite (encode_not_ascii request (String CR EmptyString) Hbad). reflexivity. }
  rewrite Hrun. repeat split.
Qed.

Lemma non_ascii_request_witness :
  wire (state_of (send_receive (String "233"%char "K") (connected [Data reply_ack])))
  = []
  /\ incoming (state_of (send_receive (String "233"%char "K") (connected [Data reply_ack])))
     = [Data reply_ack].
Proof.
  apply (non_ascii_request_is_never_sent (String "233"%char "K")
           (connected [Data reply_ack])).
  reflexivity.
Defined.

Lemma index0_append_sep p tail c0 :
  Py.index0 (p +:+ String c0 tail)
  = match Py.index0 p with Some x => Some x | None => Some c0 end.
Proof. destruct p; reflexivity. Qed.

(** X4.  What follows the last CR of a reply is discarded: two replies that
    agree up to and including their last CR get the same result from
    [send_receive], or both make it raise. *)
Theorem text_after_last_CR_is_ignored
        request1 bs1 reply1 rest1 c1 request2 bs2 reply2 rest2 c2 p tail1 tail2 :
  Py.encode (request1 +:+ String CR EmptyString) = Some bs1 ->
  incoming c1 = Data reply1 :: rest1 ->
  length reply1 <= RECV_BUFFER ->
  Py.encode (request2 +:+ String CR EmptyString) = Some bs2 ->
  incoming c2 = Data reply2 :: rest2 ->
  length reply2 <= RECV_BUFFER ->
  Py.decode reply1 = Some (p +:+ String CR tail1) ->
  Py.decode reply2 = Some (p +:+ String CR tail2) ->
  has CR tail1 = false ->
  has CR tail2 = false ->
  value_of (send_receive request1 c1) = value_of (send_receive request2 c2).
Proof.
  intros Henc1 Hin1 Hlen1 Henc2 Hin2 Hlen2 Hdec1 Hdec2 Ht1 Ht2.
  destruct (Py.index0 p) as [x |] eqn:Hp.
  - destruct p as [| x' y]; simpl in Hp; [discriminate Hp |]. inversion Hp; subst x'.
    destruct (Ascii.eqb_spec x NACK) as [-> | Hx].
    + rewrite (send_receive_nack request1 bs1 reply1 rest1 c1 Henc1 Hin1 Hlen1
                 _ (y +:+ String CR tail1) Hdec1 eq_refl).
      rewrite (send_receive_nack request2 bs2 reply2 rest2 c2 Henc2 Hin2 Hlen2
                 _ (y +:+ String CR tail2) Hdec2 eq_refl).
      reflexivity.
    + pose proof (messages_of_at (String x y) tail1 Ht1) as Hm1.
      pose proof (messages_of_at (String x y) tail2 Ht2) as Hm2.
      destruct (last (Py.split CR (String x y))) as [[| a t] |] eqn:Hlast.
      * destruct (send_receive_unclosed request1 bs1 reply1 rest1 c1 Henc1 Hin1 Hlen1
                    _ Hdec1) as (c1' & ->);
          [rewrite append_String; simpl; congruence | right; rewrite Hm1; exact Hlast |].
        destruct (send_receive_unclosed request2 bs2 reply2 rest2 c2 Henc2 Hin2 Hlen2
                    _ Hdec2) as (c2' & ->);
          [rewrite append_String; simpl; congruence | right; rewrite Hm2; exact Hlast |].
        reflexivity.
      * apply last_Some in Hlast as (earlier & Hsplit).
        rewrite (send_receive_last_message request1 bs1 reply1 rest1 c1 Henc1 Hin1 Hlen1
                   _ x (y +:+ String CR tail1) earlier a t Hdec1 eq_refl Hx);
          [| fold (messages_of (String x y +:+ String CR tail1)); rewrite Hm1; exact Hsplit].
        rewrite (send_receive_last_message request2 bs2 reply2 rest2 c2 Henc2 Hin2 Hlen2
                   _ x (y +:+ String CR tail2) earlier a t Hdec2 eq_refl Hx);
          [| fold (messages_of (String x y +:+ String CR tail2)); rewrite Hm2; exact Hsplit].
        reflexivity.
      * exfalso.
        destruct (proj2 (last_is_Some _) (split_not_nil CR (String x y))) as [m Hm].
        congruence.
  - destruct p; simpl in Hp; [| discriminate Hp].
    assert (Hfirst : forall tail, Py.index0 (EmptyString +:+ String CR tail) <> Some NACK)
      by (intros tail H; discriminate H).
    destruct (send_receive_unclosed request1 bs1 reply1 rest1 c1 Henc1 Hin1 Hlen1
                _ Hdec1 (Hfirst tail1)) as (c1' & ->);
      [right; rewrite (messages_of_at EmptyString tail1 Ht1); reflexivity |].
    destruct (send_receive_unclosed request2 bs2 reply2 rest2 c2 Henc2 Hin2 Hlen2
                _ Hdec2 (Hfirst tail2)) as (c2' & ->);
      [right; rewrite (messages_of_at EmptyString tail2 Ht2); reflexivity |].
    reflexivity.
Qed.

Lemma text_after_last_CR_witness :
  value_of (send_receive "aF" (connected [Data [x06; x59; x0d]]))
  = value_of (send_receive "aF" (connected [Data [x06; x59; x0d; x06; x4e]])).
Proof.
  apply (text_after_last_CR_is_ignored
           "aF" [x61; x46; x0d] [x06; x59; x0d] [] (connected [Data [x06; x59; x0d]])
           "aF" [x61; x46; x0d] [x06; x59; x0d; x06; x4e] []
           (connected [Data [x06; x59; x0d; x06; x4e]])
           (String ACK "Y") EmptyString (String ACK "N"));
    try reflexivity; unfold RECV_BUFFER; simpl; lia.
Defined.

End MoreExchangeFacts.

Section LogFacts.
Import Comms LinkTerms Reading Text.

Lemma errors_app l1 l2 : errors (l1 ++ l2) = errors l1 ++ errors l2.
Proof. unfold errors. apply List.filter_app. Qed.

Lemma errors_emit_below l m c :
  l <> ERROR -> errors (emit l m c) = [].
Proof.
  intros Hl. unfold emit. destruct (isEnabledFor l c); [| reflexivity].
  unfold errors. simpl. destruct l; try reflexivity. congruence.
Qed.

Lemma errors_warned d earlier c : errors (warned d earlier c) = [].
Proof.
  destruct earlier; [reflexivity |]. apply errors_emit_below. discriminate.
Qed.

Lemma errors_after_send request bs c :
  errors (log (after_send request bs c)) = errors (log c).
Proof.
  unfold after_send. simpl.
  rewrite !errors_app, !errors_emit_below by discriminate.
  rewrite !app_nil_r. reflexivity.
Qed.

(** X5.  A failure that is not announced by a leading NACK is not logged as an
    error: when the reply does not begin with NACK and its last message begins
    with something else than ACK, [send_receive] reports [(False, None)] and
    adds no record of level ERROR to the log. *)
Theorem unacknowledged_last_message_fails_unlogged
        request bs reply rest c d x y earlier a t :
  Py.encode (request +:+ String CR EmptyString) = Some bs ->
  incoming c = Data reply :: rest ->
  length reply <= RECV_BUFFER ->
  Py.decode reply = Some d ->
  d = String x y ->
  x <> NACK ->
  messages_of d = earlier ++ [String a t] ->
  a <> ACK ->
  exists c',
    send_receive request c = Returned (false, None) c'
    /\ errors (log c') = errors (log c).
Proof.
  intros Henc Hin Hlen Hdec Hd Hx Hmsgs Ha.
  eexists. split.
  - rewrite (send_receive_last_message request bs reply rest c Henc Hin Hlen
               d x y earlier a t Hdec Hd Hx Hmsgs).
    unfold verdict. apply Ascii.eqb_neq in Ha. rewrite Ha. reflexivity.
  - unfold after_exchange. simpl log.
    change (errors (log (after_send request bs c)
                    ++ emit DEBUG (ReceivedResponse (_format_message d)) c
                    ++ warned d earlier c) = errors (log c)).
    rewrite !errors_app, errors_after_send, errors_warned,
      errors_emit_below by discriminate.
    rewrite !app_nil_r. reflexivity.
Qed.

Lemma unacknowledged_last_message_witness :
  exists c',
    send_receive "1a" (connected [Data [x31; x62; x0d]]) = Returned (false, None) c'
    /\ errors (log c') = errors (log (connected [Data [x31; x62; x0d]])).
Proof.
  apply (unacknowledged_last_message_fails_unlogged
           "1a" [x31; x61; x0d] [x31; x62; x0d] [] (connected [Data [x31; x62; x0d]])
           (String "1" (String "b" (String CR EmptyString)))
           "1"%char (String "b" (String CR EmptyString))
           [] "1"%char "b"%string);
    first [ reflexivity
          | unfold RECV_BUFFER; simpl; lia
          | intros H; vm_compute in H; discriminate H ].
Defined.

Lemma emit_at_ERROR l m c :
  level c = ERROR ->
  emit l m c = match l with
               | ERROR => [{| rec_level := l; rec_msg := m |}]
               | _ => []
               end.
Proof. intros Hl. unfold emit, isEnabledFor. rewrite Hl. destruct l; reflexivity. Qed.

Lemma log_after_exchange request bs rest said c :
  log (after_exchange request bs rest said c)
  = log (after_send request bs c) ++ said.
Proof. reflexivity. Qed.

Lemma log_after_send_at_ERROR request bs c :
  level c = ERROR -> log (after_send request bs c) = log c.
Proof.
  intros Hlevel. unfold after_send. simpl.
  rewrite !emit_at_ERROR by exact Hlevel. rewrite !app_nil_r. reflexivity.
Qed.

Lemma classify_quiet_at_ERROR d c :
  level c = ERROR -> log (state_of (classify d c)) = log c.
Proof.
  intros Hlevel. unfold classify. rewrite state_of_bind.
  destruct (1 <? length (Py.drop_last (Py.split CR d)))%nat.
  - unfold log_call, modify. simpl. rewrite emit_at_ERROR by exact Hlevel.
    rewrite state_of_bind.
    destruct (Py.item_last (Py.drop_last (Py.split CR d))) as [m |]; simpl;
      [| apply app_nil_r].
    rewrite state_of_bind.
    destruct (Py.index0 m) as [a |]; simpl; [| apply app_nil_r].
    destruct (Ascii.eqb a ACK); simpl; apply app_nil_r.
  - simpl. rewrite state_of_bind.
    destruct (Py.item_last (Py.drop_last (Py.split CR d))) as [m |]; simpl;
      [| reflexivity].
    rewrite state_of_bind.
    destruct (Py.index0 m) as [a |]; simpl; [| reflexivity].
    destruct (Ascii.eqb a ACK); reflexivity.
Qed.

(** X6.  With logger Comms at level ERROR, as the cycling thread sets it, a
    transaction logs one record when the reply cannot be decoded or begins with
    NACK, and nothing at all otherwise, not even the warning about several
    messages in a reply. *)
Theorem at_level_ERROR_only_refusals_are_logged request bs reply rest c :
  Py.encode (request +:+ String CR EmptyString) = Some bs ->
  incoming c = Data reply :: rest ->
  length reply <= RECV_BUFFER ->
  level c = ERROR ->
  (Py.decode reply = None ->
   log (state_of (send_receive request c))
   = log c ++ [{| rec_level := ERROR; rec_msg := FailedToParse reply |}])
  /\ (forall d t,
        Py.decode reply = Some d -> d = String NACK t ->
        log (state_of (send_receive request c))
        = log c ++ [{| rec_level := ERROR; rec_msg := ReceivedNACK |}])
  /\ (forall d,
        Py.decode reply = Some d -> Py.index0 d <> Some NACK ->
        log (state_of (send_receive request c)) = log c).
Proof.
  intros Henc Hin Hlen Hlevel.
  pose proof (log_after_send_at_ERROR request bs c Hlevel) as Hsent.
  split; [| split].
  - intros Hdec.
    rewrite (send_receive_undecodable request bs reply rest c Henc Hin Hlen Hdec).
    unfold state_of. rewrite log_after_exchange, Hsent.
    rewrite emit_at_ERROR by exact Hlevel. reflexivity.
  - intros d t Hdec Hd.
    rewrite (send_receive_nack request bs reply rest c Henc Hin Hlen d t Hdec Hd).
    unfold state_of. rewrite log_after_exchange, Hsent.
    rewrite emit_at_ERROR by exact Hlevel. reflexivity.
  - intros d Hdec Hnack. destruct d as [| x y].
    + rewrite send_receive_unfolded, (_send_returns _ _ _ Henc),
        (socket_recv_data reply rest (after_send request bs c) Hin Hlen), Hdec.
      simpl. exact Hsent.
    + unfold send_receive. rewrite state_of_bind.
      rewrite (_send_receive_passes request bs reply rest c Henc Hin Hlen
                 (String x y) x y Hdec eq_refl);
        [| intros ->; apply Hnack; reflexivity].
      rewrite classify_quiet_at_ERROR by exact Hlevel.
      rewrite log_after_exchange, Hsent.
      rewrite emit_at_ERROR by exact Hlevel. apply app_nil_r.
Qed.

Lemma at_level_ERROR_witness :
  log (state_of (send_receive "aF"
                   (set_level ERROR (connected [Data reply_ackA_ackB]))))
  = log (set_level ERROR (connected [Data reply_ackA_ackB])).
Proof.
  apply (at_level_ERROR_only_refusals_are_logged
           "aF" [x61; x46; x0d] reply_ackA_ackB []
           (set_level ERROR (connected [Data reply_ackA_ackB])))
    with (d := String ACK (String "A" (String CR
                 (String ACK (String "B" (String CR EmptyString))))));
    first [ reflexivity
          | unfold RECV_BUFFER; simpl; lia
          | intros H; vm_compute in H; discriminate H ].
Defined.

End LogFacts.

(** ** comms.py: [clear_socket] and [send_auto_address_message] *)

Section DrainFacts.
Import Comms LinkTerms Reading Text Drain.

Lemma set_incoming_same c : set_incoming (incoming c) c = c.
Proof. destruct c; reflexivity. Qed.

Lemma set_incoming_twice i j c : set_incoming i (set_incoming j c) = set_incoming i c.
Proof. reflexivity. Qed.

Lemma clear_socket_loop_stops turns :
  forall c,
    backlog (incoming c) < turns ->
    clear_socket_loop turns c
    = Returned tt (set_incoming (after_silence (incoming c)) c).
Proof.
  induction turns as [| turns IH]; intros c Hturns; [lia |].
  simpl. unfold socket_recv.
  destruct (incoming c) as [| [bs |] rest] eqn:Hin.
  - simpl. rewrite <- Hin, set_incoming_same. reflexivity.
  - simpl in Hturns.
    destruct (drop RECV_BUFFER bs) as [| b later] eqn:Hdrop.
    + rewrite IH by (simpl; lia). reflexivity.
    + rewrite IH.
      * reflexivity.
      * assert (Hbuf : 0 < RECV_BUFFER) by (unfold RECV_BUFFER; lia).
        apply (f_equal length) in Hdrop. rewrite length_drop in Hdrop.
        cbn [length] in Hdrop. cbn [incoming set_incoming backlog].
        cbn [length]. lia.
  - reflexivity.
Qed.

(** X7.  [clear_socket] always comes back: it takes away all that arrives up to
    the first silence, and that silence, and leaves the frames sent, the level
    and the log as they were; it raises nothing.  The same holds of its loop
    for any number of turns beyond the backlog. *)
Theorem clear_socket_stops_at_first_silence turns c :
  backlog (incoming c) < turns ->
  clear_socket c = Returned tt (set_incoming (after_silence (incoming c)) c)
  /\ clear_socket_loop turns c = clear_socket c.
Proof.
  intros Hturns. unfold clear_socket.
  rewrite !clear_socket_loop_stops by lia. split; reflexivity.
Qed.

Lemma clear_socket_witness :
  clear_socket (connected [Data reply_ack_at; Data reply_nack; Silence; Data reply_ack])
  = Returned tt (connected [Data reply_ack])
  /\ clear_socket_loop 12
       (connected [Data reply_ack_at; Data reply_nack; Silence; Data reply_ack])
     = clear_socket
         (connected [Data reply_ack_at; Data reply_nack; Silence; Data reply_ack]).
Proof.
  apply (clear_socket_stops_at_first_silence 12
           (connected [Data reply_ack_at; Data reply_nack; Silence; Data reply_ack])).
  vm_compute. lia.
Defined.

(** X8.  [send_auto_address_message] hands back the text before the first CR
    of any decoded reply that does not begin with NACK, whether or not the
    reply is acknowledged or closed by a CR; an empty reply raises
    [IndexError], a reply that begins with NACK or cannot be decoded gives
    [None]. *)
Theorem auto_address_message_is_text_before_first_CR bs reply rest c :
  Py.encode (String "1" (String "a" (String CR EmptyString))) = Some bs ->
  incoming c = Data reply :: rest ->
  length reply <= RECV_BUFFER ->
  (Py.decode reply = None ->
   value_of (send_auto_address_message c) = Some None)
  /\ (Py.decode reply = Some EmptyString ->
      exists c', send_auto_address_message c = Raised IndexError c')
  /\ (forall d t,
        Py.decode reply = Some d -> d = String NACK t ->
        value_of (send_auto_address_message c) = Some None)
  /\ (forall d a t,
        Py.decode reply = Some d -> d = String a t -> a <> NACK ->
        exists piece,
          value_of (send_auto_address_message c) = Some (Some piece)
          /\ has CR piece = false
          /\ (d = piece \/ exists more, d = piece +:+ String CR more)).
Proof.
  intros Henc Hin Hlen. unfold send_auto_address_message.
  repeat split.
  - intros Hdec. rewrite run_bind.
    rewrite (_send_receive_undecodable "1a" bs reply rest c Henc Hin Hlen Hdec).
    reflexivity.
  - intros Hdec. unfold _send_receive. rewrite run_bind.
    rewrite (exchange_prefix "1a" bs reply rest c Henc Hin Hlen), Hdec.
    run. eauto.
  - intros d t Hdec Hd. rewrite run_bind.
    rewrite (_send_receive_nack "1a" bs reply rest c Henc Hin Hlen d t Hdec Hd).
    reflexivity.
  - intros d a t Hdec Hd Ha. rewrite run_bind.
    rewrite (_send_receive_passes "1a" bs reply rest c Henc Hin Hlen d a t Hdec Hd Ha).
    destruct (split_head CR d) as (piece & Hhead & Hfree & Hshape).
    exists piece. subst d. rewrite Hhead. repeat split; assumption.
Qed.

Lemma auto_address_message_witness :
  exists piece,
    value_of (send_auto_address_message (connected [Data [x31; x62]]))
    = Some (Some piece)
    /\ has CR piece = false
    /\ (String "1" (String "b" EmptyString) = piece
        \/ exists more, String "1" (String "b" EmptyString) = piece +:+ String CR more).
Proof.
  apply (auto_address_message_is_text_before_first_CR
           [x31; x61; x0d] [x31; x62] [] (connected [Data [x31; x62]]))
    with (a := "1"%char) (t := String "b" EmptyString);
    first [ reflexivity
          | unfold RECV_BUFFER; simpl; lia
          | intros H; vm_compute in H; discriminate H ].
Defined.

End DrainFacts.

(** ** microlab.py: [auto_address] and [get_firmware_version] *)

Section QueryFacts.
Import Comms LinkTerms Reading Text Queries.

Lemma auto_address_run q :
  auto_address q
  = match send_auto_address_message (Microlab._comms (microlab q)) with
    | Returned response c =>
        Returned (is_1b_or_1a response)
          {| microlab := Microlab.set_comms c (microlab q);
             said := said q
                     ++ [if is_1b_or_1a response
                         then {| rec_level := DEBUG; rec_msg := AutoAddressSuccessful |}
                         else {| rec_level := ERROR; rec_msg := AutoAddressFailed |}] |}
    | Raised e c =>
        Raised e {| microlab := Microlab.set_comms c (microlab q); said := said q |}
    end.
Proof.
  unfold auto_address. rewrite run_bind. unfold on_microlab.
  rewrite on_comms_run.
  destruct (send_auto_address_message _) as [response c | e c]; [| reflexivity].
  destruct (is_1b_or_1a response); reflexivity.
Qed.

Lemma get_firmware_version_run q :
  get_firmware_version q
  = match send_receive "aU" (Microlab._comms (microlab q)) with
    | Returned (success, firmware_version) c =>
        Returned (if success then firmware_version else Some EmptyString)
          {| microlab := Microlab.set_comms c (microlab q);
             said := said q
                     ++ [if success
                         then {| rec_level := DEBUG;
                                 rec_msg := FirmwareVersion firmware_version |}
                         else {| rec_level := ERROR;
                                 rec_msg := FailedToGetFirmwareVersion |}] |}
    | Raised e c =>
        Raised e {| microlab := Microlab.set_comms c (microlab q); said := said q |}
    end.
Proof.
  unfold get_firmware_version. rewrite run_bind. unfold on_microlab.
  rewrite on_comms_run.
  destruct (send_receive _ _) as [[success v] c | e c]; [| reflexivity].
  destruct success; reflexivity.
Qed.

Lemma send_receive_payload_not_empty request c payload c' :
  send_receive request c = Returned (true, payload) c' ->
  payload <> Some EmptyString.
Proof.
  unfold send_receive. rewrite run_bind.
  destruct (_send_receive request c) as [[d |] c1 | e c1]; try discriminate.
  apply classify_payload.
Qed.

(** X9.  [get_firmware_version] hands back the empty string exactly when the
    transaction reported failure; after a success it hands back the payload,
    which may be [None] but is never the empty string.  Either way it gives
    one record to the log, of level ERROR exactly on failure. *)
Theorem firmware_version_is_empty_iff_transaction_failed q v q' :
  get_firmware_version q = Returned v q' ->
  exists success payload c',
    send_receive "aU" (Microlab._comms (microlab q)) = Returned (success, payload) c'
    /\ (v = Some EmptyString <-> success = false)
    /\ (success = true -> v = payload)
    /\ (exists r, said q' = said q ++ [r]
                  /\ (rec_level r = ERROR <-> success = false)).
Proof.
  rewrite get_firmware_version_run.
  destruct (send_receive "aU" _) as [[success payload] c' | e c'] eqn:Hrun;
    [| discriminate].
  intros H. inversion H; subst. clear H.
  exists success, payload, c'. split; [reflexivity |].
  destruct success.
  - split; [| split].
    + split; [| discriminate]. intros Hv. exfalso.
      exact (send_receive_payload_not_empty _ _ _ _ Hrun Hv).
    + reflexivity.
    + eexists. split; [reflexivity |]. simpl. split; discriminate.
  - split; [| split].
    + split; reflexivity.
    + discriminate.
    + eexists. split; [reflexivity |]. simpl. split; reflexivity.
Qed.

Lemma firmware_version_witness :
  exists success payload c',
    send_receive "aU" (Microlab._comms (microlab (fresh (connected [Data reply_nack]))))
    = Returned (success, payload) c'
    /\ (Some EmptyString = Some EmptyString <-> success = false)
    /\ (success = true -> Some EmptyString = payload)
    /\ (exists r,
           said (state_of (get_firmware_version (fresh (connected [Data reply_nack]))))
           = said (fresh (connected [Data reply_nack])) ++ [r]
           /\ (rec_level r = ERROR <-> success = false)).
Proof.
  apply (firmware_version_is_empty_iff_transaction_failed
           (fresh (connected [Data reply_nack])) (Some EmptyString)
           (state_of (get_firmware_version (fresh (connected [Data reply_nack]))))).
  reflexivity.
Defined.

Lemma head_split_1x x more :
  x <> CR ->
  head (Py.split CR (String "1" (String x EmptyString) +:+ String CR more))
  = Some (String "1" (String x EmptyString)).
Proof.
  intros Hx. rewrite split_at. simpl.
  apply Ascii.eqb_neq in Hx. rewrite Hx. reflexivity.
Qed.

(** X10.  [auto_address] succeeds exactly when the decoded reply is "1a" or
    "1b", alone or followed by a CR and anything else; no acknowledgement
    and no closing CR is asked of the reply. *)
Theorem auto_address_succeeds_iff_reply_opens_with_1a_or_1b bs reply rest q d :
  Py.encode (String "1" (String "a" (String CR EmptyString))) = Some bs ->
  incoming (Microlab._comms (microlab q)) = Data reply :: rest ->
  length reply <= RECV_BUFFER ->
  Py.decode reply = Some d ->
  value_of (auto_address q) = Some true
  <-> (exists x, (x = "a"%char \/ x = "b"%char)
                 /\ (d = String "1" (String x EmptyString)
                     \/ exists more,
                         d = String "1" (String x EmptyString) +:+ String CR more)).
Proof.
  intros Henc Hin Hlen Hdec. rewrite auto_address_run.
  unfold send_auto_address_message. rewrite run_bind.
  destruct d as [| a t].
  - unfold _send_receive.
    rewrite (exchange_prefix "1a" bs reply rest _ Henc Hin Hlen), Hdec.
    run. split; [discriminate |].
    intros (x & _ & [H | (more & H)]); discriminate H.
  - destruct (Ascii.eqb_spec a NACK) as [-> | Ha].
    + rewrite (_send_receive_nack "1a" bs reply rest _ Henc Hin Hlen _ t Hdec eq_refl).
      simpl. split; [discriminate |].
      intros (x & _ & [H | (more & H)]); discriminate H.
    + rewrite (_send_receive_passes "1a" bs reply rest _ Henc Hin Hlen _ a t Hdec
                 eq_refl Ha).
      destruct (split_head CR (String a t)) as (piece & Hhead & Hfree & Hshape).
      cbn beta iota. unfold ret. rewrite Hhead. cbn [value_of]. split.
      * intros Hok. injection Hok as Hok. unfold is_1b_or_1a in Hok.
        apply orb_true_iff in Hok as [Hok | Hok]; apply String.eqb_eq in Hok;
          subst piece.
        -- exists "b"%char. split; [right; reflexivity | exact Hshape].
        -- exists "a"%char. split; [left; reflexivity | exact Hshape].
      * intros (x & Hx & Hd). f_equal.
        assert (Hpiece : piece = String "1" (String x EmptyString)).
        { destruct Hd as [Hd | (more & Hd)].
          - rewrite Hd in Hhead. destruct Hx as [-> | ->];
              vm_compute in Hhead; congruence.
          - rewrite Hd, head_split_1x in Hhead; [congruence |].
            destruct Hx as [-> | ->]; intros H; vm_compute in H; discriminate H. }
        rewrite Hpiece. destruct Hx as [-> | ->]; reflexivity.
Qed.

Lemma auto_address_witness :
  value_of (auto_address (fresh (connected [Data [x31; x62]]))) = Some true
  <-> (exists x, (x = "a"%char \/ x = "b"%char)
                 /\ (String "1" (String "b" EmptyString) = String "1" (String x EmptyString)
                     \/ exists more,
                         String "1" (String "b" EmptyString)
                         = String "1" (String x EmptyString) +:+ String CR more)).
Proof.
  apply (auto_address_succeeds_iff_reply_opens_with_1a_or_1b
           [x31; x61; x0d] [x31; x62] [] (fresh (connected [Data [x31; x62]])));
    first [ reflexivity | unfold RECV_BUFFER; simpl; lia ].
Defined.

End QueryFacts.

(** ** microlab.py: the controller over whole schedules *)

Section CycleFacts.
Import Microlab ControllerTerms CycleTerms.
Variable Y_INFO_RESPONSE : string.
Local Abbreviation step := (_cycle_commands Y_INFO_RESPONSE).
Local Abbreviation perform := (Microlab.perform Y_INFO_RESPONSE).
Local Abbreviation execute := (Microlab.execute Y_INFO_RESPONSE).

Lemma _send_keeps_level request c :
  Comms.level (state_of (Comms._send request c)) = Comms.level c.
Proof.
  unfold Comms._send. rewrite state_of_bind. simpl. rewrite state_of_bind.
  destruct (Py.encode _); reflexivity.
Qed.

Lemma socket_recv_keeps_level c :
  Comms.level (state_of (Comms.socket_recv c)) = Comms.level c.
Proof.
  unfold Comms.socket_recv. destruct (Comms.incoming c) as [| [bs |] rest];
    try reflexivity.
  destruct (drop Comms.RECV_BUFFER bs); reflexivity.
Qed.

Lemma send_receive_keeps_level request c :
  Comms.level (state_of (Comms.send_receive request c)) = Comms.level c.
Proof.
  rewrite send_receive_unfolded.
  pose proof (_send_keeps_level request c) as Hsend.
  destruct (Comms._send request c) as [[] c1 | e c1]; simpl in Hsend;
    [| exact Hsend].
  pose proof (socket_recv_keeps_level c1) as Hrecv.
  destruct (Comms.socket_recv c1) as [response c2 | e c2]; simpl in Hrecv;
    [| simpl; congruence].
  destruct (only_logs_after_receive response c2) as (_ & _ & Hl).
  rewrite Hl. congruence.
Qed.

Lemma step_keeps_level commands address pc s :
  pc <> Enter ->
  Comms.level (_comms (snd (step commands address pc s))) = Comms.level (_comms s).
Proof.
  intros Hpc.
  assert (Hreset : Comms.level (_comms (snd (proceed (_reset_cycle address s)
                                                     (fun _ => Done))))
                   = Comms.level (_comms s)).
  { rewrite _reset_cycle_run.
    pose proof (send_receive_keeps_level (address +:+ "K") (_comms s)) as H.
    destruct (Comms.send_receive _ _); exact H. }
  destruct pc as [| | [| command rest] | rest | rest | rest | | e]; simpl;
    try congruence; try reflexivity.
  - destruct (_stop_requested s); [exact Hreset | reflexivity].
  - rewrite send_command_run.
    pose proof (send_receive_keeps_level (address +:+ Command.string command)
                  (_comms s)) as H.
    destruct (Comms.send_receive _ _); exact H.
  - rewrite on_comms_run.
    pose proof (send_receive_keeps_level (address +:+ INSTRUMENT_DONE) (_comms s)) as H.
    destruct (Comms.send_receive _ _); exact H.
  - destruct (_stop_requested s); [exact Hreset | reflexivity].
Qed.

Lemma perform_keeps_logging_off a sys :
  leaves_logging_off [a] = true ->
  Comms.level (_comms (controller sys)) = Comms.ERROR ->
  Comms.level (_comms (controller (perform a sys))) = Comms.ERROR.
Proof.
  intros Ha Hlevel.
  destruct a as [commands address | [|] | i]; simpl.
  - destruct (_threads (controller sys)) as [| th ths] eqn:Hthreads.
    + rewrite (cycle_commands_started commands address _ Hthreads). exact Hlevel.
    + rewrite cycle_commands_refused by (rewrite Hthreads; discriminate).
      exact Hlevel.
  - discriminate Ha.
  - unfold stop_cycle. rewrite state_of_bind. simpl.
    destruct (_threads (controller sys)); exact Hlevel.
  - destruct (tasks sys !! i) as [tk |]; [| exact Hlevel].
    destruct (step (task_commands tk) (task_address tk) (task_pc tk) (controller sys))
      as [pc' s'] eqn:Hstep.
    simpl. destruct (task_pc tk) eqn:Hpc;
      try (pose proof (step_keeps_level (task_commands tk) (task_address tk)
                         (task_pc tk) (controller sys)) as H;
           rewrite Hpc in H; rewrite Hstep in H; simpl in H;
           rewrite H by discriminate; exact Hlevel).
    simpl in Hstep. inversion Hstep. reflexivity.
Qed.

Lemma execute_keeps_logging_off schedule :
  forall sys,
    leaves_logging_off schedule = true ->
    Comms.level (_comms (controller sys)) = Comms.ERROR ->
    Comms.level (_comms (controller (execute schedule sys))) = Comms.ERROR.
Proof.
  induction schedule as [| a schedule IH]; intros sys Hoff Hlevel; [exact Hlevel |].
  simpl in Hoff. apply andb_true_iff in Hoff as [Ha Hoff].
  simpl. apply IH; [exact Hoff |].
  apply perform_keeps_logging_off; [| exact Hlevel].
  simpl. rewrite Ha. reflexivity.
Qed.

(** X11.  Once a cycle thread has made its first move, logger Comms is at
    level ERROR and stays there through every later call and move, the end
    of the cycle included, as long as nobody calls [stop_cycle] with
    [enable_logging=True]. *)
Theorem cycling_turns_link_logging_off_for_good sys i tk schedule :
  tasks sys !! i = Some tk ->
  task_pc tk = Enter ->
  leaves_logging_off schedule = true ->
  Comms.level (_comms (controller (execute (Background i :: schedule) sys)))
  = Comms.ERROR.
Proof.
  intros Hi Hpc Hoff. simpl. apply execute_keeps_logging_off; [exact Hoff |].
  rewrite Hi, Hpc. reflexivity.
Qed.

Lemma wedged_perform a sys :
  wedged sys ->
  wedged (perform a sys)
  /\ _threads (controller (perform a sys)) = _threads (controller sys).
Proof.
  intros (Hheld & Hquiet).
  destruct a as [commands address | enable_logging | i]; simpl.
  - rewrite (cycle_commands_refused commands address _ Hheld).
    unfold wedged. simpl. unfold newly_started. simpl.
    destruct (_threads (controller sys)) as [| th ths] eqn:Hthreads; [congruence |].
    rewrite app_nil_r. repeat split; [discriminate | exact Hquiet].
  - unfold wedged. simpl. rewrite stop_cycle_keeps_threads.
    repeat split; assumption.
  - destruct (tasks sys !! i) as [tk |] eqn:Hi; [| repeat split; assumption].
    rewrite (not_live_stays Y_INFO_RESPONSE _ _ _ _ (Hquiet i tk Hi)).
    unfold wedged. simpl. repeat split; [exact Hheld |].
    intros k tk' Hk.
    apply list_lookup_insert_Some in Hk as [(_ & Htk & _) | [_ Hk]].
    + rewrite <- Htk. simpl. exact (Hquiet i tk Hi).
    + exact (Hquiet k tk' Hk).
Qed.

Lemma wedged_execute schedule :
  forall sys, wedged sys -> wedged (execute schedule sys).
Proof.
  induction schedule as [| a schedule IH]; intros sys Hsys; [exact Hsys |].
  simpl. apply IH, wedged_perform, Hsys.
Qed.

(** X12.  An exception that ends the cycle thread leaves the controller
    wedged: when a move of the one live thread raises, the thread list still
    holds the thread and no thread is alive to empty it. *)
Theorem uncaught_exception_wedges_the_controller sys i tk e s' :
  one_cycle sys ->
  tasks sys !! i = Some tk ->
  live (task_pc tk) = true ->
  step (task_commands tk) (task_address tk) (task_pc tk) (controller sys)
  = (Dead e, s') ->
  wedged (perform (Background i) sys).
Proof.
  intros (Hlen & Hheld & Hone) Hi Hlive Hstep.
  simpl. rewrite Hi, Hstep. unfold wedged. simpl. split.
  - destruct (step_threads Y_INFO_RESPONSE _ _ _ _ _ _ Hstep) as (_ & [-> | (_ & H & _)]).
    + exact (Hheld i tk Hi Hlive).
    + discriminate H.
  - intros k tk' Hk.
    apply list_lookup_insert_Some in Hk as [(_ & Htk & _) | [Hne Hk]];
      [rewrite <- Htk; reflexivity |].
    destruct (live (task_pc tk')) eqn:Hl; [| reflexivity].
    exfalso. apply Hne. exact (Hone i k tk tk' Hi Hk Hlive Hl).
Qed.

(** X13.  A wedged controller stays wedged: whatever calls and moves follow,
    the thread list is never emptied, [stop_cycle] included, and every call of
    [cycle_commands] is refused and starts no thread. *)
Theorem wedged_controller_refuses_every_cycle sys schedule commands address :
  wedged sys ->
  wedged (execute schedule sys)
  /\ perform (CallCycleCommands commands address) (execute schedule sys)
     = {| controller := add_log {| rec_level := Comms.ERROR;
                                   rec_msg := CycleAlreadyRunning |}
                          (controller (execute schedule sys));
          tasks := tasks (execute schedule sys) |}.
Proof.
  intros Hsys. pose proof (wedged_execute schedule sys Hsys) as Hw.
  split; [exact Hw |].
  destruct Hw as (Hheld & _). simpl.
  rewrite (cycle_commands_refused commands address _ Hheld). simpl.
  unfold newly_started.
  destruct (_threads (controller (execute schedule sys))); [congruence |].
  rewrite app_nil_r. reflexivity.
Qed.

(** X14.  A cycle that was stopped can be started again: when the thread
    meets the stop request at the head of its loop and the halt transaction
    comes back, its move ends it, and the next call of [cycle_commands] is
    accepted and starts a new thread. *)
Theorem stopped_cycle_can_be_started_again sys i tk r c commands address :
  tasks sys !! i = Some tk ->
  task_pc tk = While ->
  _stop_requested (controller sys) = true ->
  Comms.send_receive (task_address tk +:+ "K") (_comms (controller sys))
  = Returned r c ->
  let sys' := execute [Background i; CallCycleCommands commands address] sys in
  tasks sys' = <[i := returned tk]> (tasks sys) ++ [entering commands address]
  /\ _threads (controller sys')
     = [{| args_commands := commands; args_address := address; started := true |}]
  /\ _stop_requested (controller sys') = false.
Proof.
  intros Hi Hpc Hstop Hhalt sys'. subst sys'.
  change (execute [Background i; CallCycleCommands commands address] sys)
    with (perform (CallCycleCommands commands address) (perform (Background i) sys)).
  assert (Hfirst : perform (Background i) sys
                   = {| controller := after_reset r c (controller sys);
                        tasks := <[i := returned tk]> (tasks sys) |}).
  { unfold Microlab.perform. rewrite Hi, Hpc.
    rewrite (step_reset Y_INFO_RESPONSE (task_commands tk) (task_address tk) While
               (controller sys) (or_introl eq_refl) Hstop), Hhalt.
    reflexivity. }
  rewrite Hfirst. unfold Microlab.perform.
  cbn [controller tasks].
  rewrite (cycle_commands_started commands address
             (after_reset r c (controller sys)) eq_refl).
  cbn [state_of controller tasks]. repeat split.
Qed.

Lemma stop_cycle_run enable_logging s :
  stop_cycle enable_logging s
  = Returned tt
      match _threads s with
      | [] => s
      | _ :: _ =>
          set_stop_requested true
            (if enable_logging
             then set_comms (Comms.set_level Comms.DEBUG (_comms s)) s
             else s)
      end.
Proof.
  unfold stop_cycle. rewrite run_bind. simpl.
  destruct (_threads s); [reflexivity |].
  destruct enable_logging; reflexivity.
Qed.

(** X15.  [stop_cycle] never raises and asking twice is asking once; on a
    controller with no thread in its list it changes nothing at all, so a stop
    asked for before a cycle is started does not stop that cycle. *)
Theorem stop_cycle_is_idempotent_and_idle_when_idle enable_logging s :
  exists s',
    stop_cycle enable_logging s = Returned tt s'
    /\ stop_cycle enable_logging s' = Returned tt s'
    /\ (_threads s = [] -> s' = s)
    /\ (_threads s <> [] -> _stop_requested s' = true).
Proof.
  eexists. split; [apply stop_cycle_run |].
  rewrite stop_cycle_run.
  destruct (_threads s) as [| th ths] eqn:Hthreads.
  - rewrite Hthreads. repeat split; congruence.
  - destruct enable_logging; simpl; rewrite Hthreads; repeat split; congruence.
Qed.

(** X16.  [initialise] never clears the flag: a controller that has been
    initialised stays so when a later [initialise] fails or raises, and the
    flag is set whenever the transaction reports success. *)
Theorem initialise_never_clears_the_flag s :
  (_initialised s = true -> _initialised (state_of (initialise s)) = true)
  /\ (forall payload c,
        Comms.send_receive "aXR" (_comms s) = Returned (true, payload) c ->
        _initialised (state_of (initialise s)) = true)
  /\ (forall payload c,
        Comms.send_receive "aXR" (_comms s) = Returned (false, payload) c ->
        _initialised (state_of (initialise s)) = _initialised s).
Proof.
  unfold initialise. rewrite state_of_bind, on_comms_run.
  destruct (Comms.send_receive "aXR" (_comms s)) as [[[|] p] c | e c].
  - repeat split; intros; try reflexivity; discriminate.
  - repeat split; intros; try reflexivity; try assumption; discriminate.
  - repeat split; intros; try assumption; discriminate.
Qed.

End CycleFacts.

Section CycleWitnesses.
Import Microlab ControllerTerms CycleTerms.

Lemma cycling_turns_link_logging_off_witness :
  Comms.level
    (_comms (controller
               (execute "Y" (Background 0
                             :: [CallStopCycle false; Background 0; Background 0])
                  (perform "Y" (CallCycleCommands [{| Command.string := "BM100" |}] "a")
                     (boot (Comms.connected [Comms.Data LinkTerms.reply_ack]))))))
  = Comms.ERROR.
Proof.
  apply (cycling_turns_link_logging_off_for_good "Y" _ 0
           (entering [{| Command.string := "BM100" |}] "a")); reflexivity.
Defined.

Lemma uncaught_exception_witness :
  wedged
    (perform "Y" (Background 0)
       (execute "Y" [CallCycleCommands [{| Command.string := "BM100" |}] "a";
                     Background 0; Background 0]
          (boot (Comms.connected [])))).
Proof.
  eapply (uncaught_exception_wedges_the_controller "Y" _ 0).
  - apply one_cycle_execute, one_cycle_boot.
  - reflexivity.
  - reflexivity.
  - reflexivity.
Defined.

Lemma wedged_controller_witness :
  wedged (execute "Y" [CallStopCycle true; Background 0] (stuck_system))
  /\ perform "Y" (CallCycleCommands [] "a")
       (execute "Y" [CallStopCycle true; Background 0] (stuck_system))
     = {| controller := add_log {| rec_level := Comms.ERROR;
                                   rec_msg := CycleAlreadyRunning |}
                          (controller (execute "Y" [CallStopCycle true; Background 0]
                                         (stuck_system)));
          tasks := tasks (execute "Y" [CallStopCycle true; Background 0]
                            (stuck_system)) |}.
Proof.
  apply (wedged_controller_refuses_every_cycle "Y" stuck_system).
  unfold wedged. split.
  - simpl. intros H. discriminate H.
  - intros [| k] tk H; simpl in H; inversion H. reflexivity.
Defined.

Lemma stopped_cycle_witness :
  let sys' := execute "Y" [Background 0; CallCycleCommands [] "b"]
                {| controller := stopping [Comms.Data LinkTerms.reply_ack];
                   tasks := [{| task_commands := []; task_address := "a";
                                task_pc := While |}] |} in
  tasks sys' = <[0 := returned {| task_commands := []; task_address := "a";
                                  task_pc := While |}]>
                 [{| task_commands := []; task_address := "a"; task_pc := While |}]
               ++ [entering [] "b"]
  /\ _threads (controller sys')
     = [{| args_commands := []; args_address := "b"; started := true |}]
  /\ _stop_requested (controller sys') = false.
Proof.
  eapply (stopped_cycle_can_be_started_again "Y"
            {| controller := stopping [Comms.Data LinkTerms.reply_ack];
               tasks := [{| task_commands := []; task_address := "a";
                            task_pc := While |}] |} 0);
    reflexivity.
Defined.

End CycleWitnesses.

(** ** wrapper.py: what the process variables show *)

Section WrapperFacts.
Import Wrapper.
Local Open Scope Z_scope.

Lemma land_low_bits byte n :
  0 <= n -> Z.land byte (Z.shiftl 1 n - 1) = byte mod 2 ^ n.
Proof.
  intros Hn. rewrite Z.shiftl_1_l, Z.sub_1_r, <- Z.ones_equiv.
  apply Z.land_ones. exact Hn.
Qed.

Lemma _get_last_n_bits_mod byte n :
  0 <= n -> _get_last_n_bits byte n = inl (byte mod 2 ^ n).
Proof.
  intros Hn. unfold _get_last_n_bits.
  destruct (Z.ltb_spec n 0) as [Hneg | _]; [lia |].
  rewrite land_low_bits by exact Hn. reflexivity.
Qed.

(** X17.  [_get_last_n_bits] gives the remainder of the byte by [2 ** n], a
    number from 0 up to [2 ** n - 1], for every integer, negative ones
    included, and every [n] that is not negative. *)
Theorem last_n_bits_is_the_remainder byte n :
  0 <= n ->
  _get_last_n_bits byte n = inl (byte mod 2 ^ n)
  /\ 0 <= byte mod 2 ^ n < 2 ^ n.
Proof.
  intros Hn. split; [apply _get_last_n_bits_mod, Hn |].
  apply Z.mod_pos_bound. apply Z.pow_pos_nonneg; lia.
Qed.

Lemma last_n_bits_witness :
  _get_last_n_bits (-3) 4 = inl ((-3) mod 2 ^ 4)
  /\ 0 <= (-3) mod 2 ^ 4 < 2 ^ 4.
Proof. apply (last_n_bits_is_the_remainder (-3) 4). lia. Defined.

Lemma land_15 r : Z.land r 15 = r mod 16.
Proof. apply (Z.land_ones r 4). lia. Qed.

Lemma land_31 r : Z.land r 31 = r mod 32.
Proof. apply (Z.land_ones r 5). lia. Qed.

Lemma alarm_when_shown response mask shown :
  Z.land response mask = shown ->
  _return_major_alarm_when_bit_is_true response mask shown
  = (shown, if shown =? 0 then NO_ALARM else MAJOR_ALARM).
Proof.
  intros H. unfold _return_major_alarm_when_bit_is_true, truthy.
  rewrite H. destruct (shown =? 0); reflexivity.
Qed.

Lemma error_status_shows response :
  get_instrument_error_status (Some response)
  = inl (Some (response mod 16),
         if response mod 16 =? 0 then NO_ALARM else MAJOR_ALARM).
Proof.
  unfold get_instrument_error_status.
  rewrite _get_last_n_bits_mod by lia.
  change (2 ^ 4) with 16.
  rewrite (alarm_when_shown response 15 (response mod 16) (land_15 response)).
  reflexivity.
Qed.

(** X18.  The instrument error status shows the last four bits of the answer
    and raises the major alarm exactly when what it shows is not zero; bits
    above the fourth neither show nor alarm. *)
Theorem error_status_alarms_iff_shown_value_is_not_zero response :
  get_instrument_error_status (Some response)
  = inl (Some (response mod 16),
         if response mod 16 =? 0 then NO_ALARM else MAJOR_ALARM).
Proof. apply error_status_shows. Qed.

(** X19.  The instrument busy status never raises the major alarm: its alarm
    mask is zero, so every answer shows its last two bits with no alarm. *)
Theorem busy_status_never_alarms response :
  get_instrument_busy_status (Some response)
  = inl (Some (response mod 4), NO_ALARM).
Proof.
  unfold get_instrument_busy_status.
  rewrite _get_last_n_bits_mod by lia.
  unfold _return_major_alarm_when_bit_is_true, truthy.
  rewrite Z.land_0_r. reflexivity.
Qed.

Lemma land_30_of_low r : Z.land r 30 = Z.land (r mod 32) 30.
Proof.
  rewrite <- land_31, <- Z.land_assoc. reflexivity.
Qed.

Lemma below_32 m :
  0 <= m < 32 ->
  Z.shiftr m 3 = m / 8
  /\ (Z.land m 30 =? 0) = (m <? 2).
Proof.
  intros Hm.
  assert (Hcases : m = 0 \/ m = 1 \/ m = 2 \/ m = 3 \/ m = 4 \/ m = 5 \/ m = 6
                   \/ m = 7 \/ m = 8 \/ m = 9 \/ m = 10 \/ m = 11 \/ m = 12
                   \/ m = 13 \/ m = 14 \/ m = 15 \/ m = 16 \/ m = 17 \/ m = 18
                   \/ m = 19 \/ m = 20 \/ m = 21 \/ m = 22 \/ m = 23 \/ m = 24
                   \/ m = 25 \/ m = 26 \/ m = 27 \/ m = 28 \/ m = 29 \/ m = 30
                   \/ m = 31) by lia.
  repeat (destruct Hcases as [-> | Hcases]; [split; reflexivity |]).
  subst m. split; reflexivity.
Qed.

(** X20.  The instrument status request shows bits 3 and 4 of the answer, a
    number from 0 to 3, but raises the major alarm on bits 1 to 4: an answer
    whose last five bits make a number from 2 to 7 shows 0 under a major
    alarm, and bit 0 and the bits above the fourth count for nothing. *)
Theorem status_request_shows_two_bits_and_alarms_on_four response :
  get_instrument_status_request (Some response)
  = inl (Some (response mod 32 / 8),
         if response mod 32 <? 2 then NO_ALARM else MAJOR_ALARM)
  /\ 0 <= response mod 32 / 8 <= 3.
Proof.
  assert (Hm : 0 <= response mod 32 < 32) by (apply Z.mod_pos_bound; lia).
  destruct (below_32 _ Hm) as (Hshift & Hmask).
  split.
  - unfold get_instrument_status_request.
    rewrite _get_last_n_bits_mod by lia. change (2 ^ 5) with 32.
    unfold _return_major_alarm_when_bit_is_true, truthy.
    rewrite Hshift, land_30_of_low, Hmask.
    destruct (response mod 32 <? 2); reflexivity.
  - split; [apply Z.div_pos; lia |].
    assert (response mod 32 / 8 < 4) by (apply Z.div_lt_upper_bound; lia). lia.
Qed.

Lemma item_in_range {A} (l : list A) idx :
  - Z.of_nat (length l) <= idx < Z.of_nat (length l) ->
  exists x, item l idx = inl x
            /\ l !! Z.to_nat (if idx <? 0 then idx + Z.of_nat (length l) else idx)
               = Some x.
Proof.
  intros Hidx. unfold item.
  set (i := if idx <? 0 then idx + Z.of_nat (length l) else idx).
  assert (Hi : 0 <= i < Z.of_nat (length l)).
  { unfold i. destruct (Z.ltb_spec idx 0); lia. }
  destruct (Z.ltb_spec i 0) as [Hneg | _]; [lia |].
  destruct (l !! Z.to_nat i) as [x |] eqn:Hx; [eauto |].
  apply lookup_ge_None in Hx. lia.
Qed.

Lemma item_out_of_range {A} (l : list A) idx :
  idx < - Z.of_nat (length l) \/ Z.of_nat (length l) <= idx ->
  item l idx = inr IndexError.
Proof.
  intros Hidx. unfold item.
  destruct (Z.ltb_spec idx 0) as [Hneg | Hpos].
  - destruct (Z.ltb_spec (idx + Z.of_nat (length l)) 0) as [_ | H];
      [reflexivity | lia].
  - destruct (Z.ltb_spec idx 0) as [H | _]; [lia |].
    destruct (l !! Z.to_nat idx) as [x |] eqn:Hx; [| reflexivity].
    apply lookup_lt_Some in Hx. lia.
Qed.

(** X21.  The detailed syringe and valve error takes the byte at [idx] of the
    answer, counting from the end for a negative [idx]: it shows the last five
    bits of that byte and raises the major alarm exactly when they are not
    zero, and an [idx] outside the answer is an [IndexError]. *)
Theorem detailed_error_reads_one_byte_or_raises response idx :
  (- Z.of_nat (length response) <= idx < Z.of_nat (length response) ->
   exists byte,
     response !! Z.to_nat (if idx <? 0 then idx + Z.of_nat (length response) else idx)
     = Some byte
     /\ get_detailed_syringe_valve_error (Some response) idx
        = inl (Some (byte mod 32),
               if byte mod 32 =? 0 then NO_ALARM else MAJOR_ALARM))
  /\ (idx < - Z.of_nat (length response) \/ Z.of_nat (length response) <= idx ->
      get_detailed_syringe_valve_error (Some response) idx = inr IndexError).
Proof.
  split; intros Hidx; unfold get_detailed_syringe_valve_error.
  - destruct (item_in_range response idx Hidx) as (byte & -> & Hbyte).
    exists byte. split; [exact Hbyte |].
    rewrite _get_last_n_bits_mod by lia. change (2 ^ 5) with 32.
    rewrite (alarm_when_shown byte 31 (byte mod 32) (land_31 byte)).
    reflexivity.
  - rewrite (item_out_of_range response idx Hidx). reflexivity.
Qed.

Lemma land_of_masked r mask bit :
  Z.land mask bit = bit -> Z.land r mask = 0 -> Z.land r bit = 0.
Proof.
  intros Hbit Hmask. rewrite <- Hbit, Z.land_assoc, Hmask. reflexivity.
Qed.

(** X22.  The left and right syringe error statuses read bits 1 and 3 of the
    answer that the instrument error status reads: each reports "Syringe
    Error" exactly when its bit is set, and whenever one of them does, the
    instrument error status raises its major alarm. *)
Theorem syringe_errors_are_bits_of_the_error_status response :
  (get_left_syringe_error_status (Some response)
   = if Z.testbit response 1 then ("Syringe Error"%string, MAJOR_ALARM)
     else ("Ready"%string, NO_ALARM))
  /\ (get_right_syringe_error_status (Some response)
      = if Z.testbit response 3 then ("Syringe Error"%string, MAJOR_ALARM)
        else ("Ready"%string, NO_ALARM))
  /\ (Z.testbit response 1 || Z.testbit response 3 = true ->
      get_instrument_error_status (Some response)
      = inl (Some (response mod 16), MAJOR_ALARM)).
Proof.
  assert (Hbit : forall n, 0 <= n ->
                           (Z.land response (2 ^ n) =? 0) = negb (Z.testbit response n)).
  { intros n Hn.
    assert (Hland : Z.land response (2 ^ n)
                    = if Z.testbit response n then 2 ^ n else 0).
    { apply Z.bits_inj'. intros k Hk. rewrite Z.land_spec.
      destruct (Z.eq_dec k n) as [-> | Hne].
      - rewrite Z.pow2_bits_true by lia. rewrite andb_true_r.
        destruct (Z.testbit response n) eqn:Hb;
          [rewrite Z.pow2_bits_true by lia; reflexivity | rewrite Z.bits_0; reflexivity].
      - rewrite Z.pow2_bits_false by lia. rewrite andb_false_r.
        destruct (Z.testbit response n);
          [rewrite Z.pow2_bits_false by lia; reflexivity | rewrite Z.bits_0; reflexivity]. }
    rewrite Hland. destruct (Z.testbit response n); [| reflexivity].
    apply Z.eqb_neq. apply Z.pow_nonzero; lia. }
  pose proof (Hbit 1 ltac:(lia)) as H1. pose proof (Hbit 3 ltac:(lia)) as H3.
  change (2 ^ 1) with 2 in H1. change (2 ^ 3) with 8 in H3.
  split; [| split].
  - unfold get_left_syringe_error_status, _get_individual_syringe_error_status, truthy.
    rewrite H1. destruct (Z.testbit response 1); reflexivity.
  - unfold get_right_syringe_error_status, _get_individual_syringe_error_status, truthy.
    rewrite H3. destruct (Z.testbit response 3); reflexivity.
  - intros Hset. rewrite error_status_shows.
    destruct (Z.eqb_spec (response mod 16) 0) as [Hzero | _]; [| reflexivity].
    exfalso. rewrite <- land_15 in Hzero.
    apply orb_true_iff in Hset as [Hb | Hb].
    + rewrite (land_of_masked response 15 2 eq_refl Hzero) in H1.
      rewrite Hb in H1. discriminate H1.
    + rewrite (land_of_masked response 15 8 eq_refl Hzero) in H3.
      rewrite Hb in H3. discriminate H3.
Qed.

Lemma syringe_errors_witness :
  get_instrument_error_status (Some 8) = inl (Some (8 mod 16), MAJOR_ALARM).
Proof.
  apply (syringe_errors_are_bits_of_the_error_status 8). reflexivity.
Defined.

(** X23.  A turn of the movement monitor keeps the deque at two positions,
    the one before and the new one; the two records are never both set, and
    both are cleared exactly when the position has not changed. *)
Theorem movement_records_are_never_both_set position recent_positions :
  length recent_positions = 2%nat ->
  exists before,
    last recent_positions = Some before
    /\ movement_turn position recent_positions
       = ([before; position], Some (before <? position), Some (before >? position))
    /\ ((before <? position) && (before >? position) = false)
    /\ ((before <? position) || (before >? position) = false <-> position = before).
Proof.
  intros Hlen.
  destruct recent_positions as [| p0 [| p1 [| p2 more]]]; try discriminate Hlen.
  exists p1. split; [reflexivity |]. split; [reflexivity |].
  rewrite Z.gtb_ltb.
  destruct (Z.ltb_spec p1 position), (Z.ltb_spec position p1); simpl;
    split; try reflexivity; try lia; split; intros; try lia; try discriminate;
    reflexivity.
Qed.

Lemma movement_records_witness :
  exists before,
    last [0; 0] = Some before
    /\ movement_turn 5 [0; 0]
       = ([before; 5], Some (before <? 5), Some (before >? 5))
    /\ ((before <? 5) && (before >? 5) = false)
    /\ ((before <? 5) || (before >? 5) = false <-> 5 = before).
Proof.
  apply (movement_records_are_never_both_set 5 [0; 0]). reflexivity.
Defined.

End WrapperFacts.

(** ** microlab.py: [halt_execution], [resume_execution] and
    [clear_all_buffered_commands] *)

Section LetterFacts.
Import Microlab.





End LetterFacts.
